(** * RevisaoProva: the contact form service of [app.js]

    A shallow embedding of the Express application in [src/app.js]:
    the access-logger middleware, the Zod schema [contatoSchema], and the
    three route handlers.  JavaScript strings are sequences of UTF-16 code
    units, request bodies are JavaScript values, and the handlers run in a
    small state-and-exception monad over the world the application talks to
    (the contact table, the log file, the console). *)

From Stdlib Require Import String Ascii NArith List Bool Lia Floats.
From stdpp Require Import base option list gmap.

Set Warnings "-register-all".
Local Open Scope N_scope.

(** ** JavaScript strings *)

(** A JavaScript string is a sequence of 16-bit code units; [length] is the
    [.length] property. *)
Abbreviation jsstring := (list N).

Module Utf.

(** Decoding of the UTF-8 bytes of a source literal into code points.
    [need] continuation bytes are still expected, [acc] holds the bits
    read so far. *)
Fixpoint decode_utf8 (need : nat) (acc : N) (bs : list N) : list N :=
  match bs with
  | [] => []
  | b :: rest =>
      match need with
      | O =>
          if b <? 128 then b :: decode_utf8 0 0 rest
          else if b <? 224 then decode_utf8 1 (b mod 32) rest
          else if b <? 240 then decode_utf8 2 (b mod 16) rest
          else decode_utf8 3 (b mod 8) rest
      | S O => (acc * 64 + b mod 64) :: decode_utf8 0 0 rest
      | S n => decode_utf8 n (acc * 64 + b mod 64) rest
      end
  end.

(** A code point as UTF-16: itself in the basic plane, a surrogate pair
    above it. *)
Definition utf16_units (cp : N) : list N :=
  if cp <? 65536 then [cp]
  else [55296 + (cp - 65536) / 1024; 56320 + (cp - 65536) mod 1024].

Definition bytes_of (s : string) : list N :=
  List.map N_of_ascii (list_ascii_of_string s).

End Utf.

(** The JavaScript string denoted by a literal of the source file. *)
Definition lit (s : string) : jsstring :=
  List.flat_map Utf.utf16_units (Utf.decode_utf8 0 0 (Utf.bytes_of s)).

#[global] Arguments lit : simpl never.

(** [Array.prototype.join] on an array of strings. *)
Fixpoint join (sep : jsstring) (xs : list jsstring) : jsstring :=
  match xs with
  | [] => []
  | [x] => x
  | x :: rest => x ++ sep ++ join sep rest
  end.

(** [String.prototype.includes]: [needle] occurs in [hay]. *)
Definition includes (hay needle : jsstring) : Prop :=
  exists pre post, hay = pre ++ needle ++ post.

(** ** JavaScript values, as the body parsers produce them *)

Inductive value : Type :=
| VUndefined
| VNull
| VBool (b : bool)
| VNumber (x : float)
| VString (s : jsstring)
| VArray (items : list value)
| VObject (props : gmap (list N) value).

(** Reading an own data property: [obj[key]] is [undefined] where the key is
    absent. *)
Definition get_own (props : gmap (list N) value) (key : jsstring) : value :=
  default VUndefined (props !! key).

(** A JavaScript exception value. *)
Inductive error : Type :=
| TypeError (msg : jsstring)
| Error (msg : jsstring).

(** The member expression [v.key], for a key that no prototype and no exotic
    object supplies (true of [nome], [email] and [telefone]): an own property
    of an object, a [TypeError] on [undefined] and [null], and [undefined]
    on every other value. *)
Definition member (v : value) (key : jsstring) : error + value :=
  match v with
  | VObject props => inr (get_own props key)
  | VUndefined | VNull => inl (TypeError (lit "Cannot read properties"))
  | _ => inr VUndefined
  end.

(** ** Regular expressions

    The fragment the source uses: literal characters, the class [\d], a
    counted repetition [{n}] of either, in sequence, between [^] and [$]. *)
Module RegExp.

Inductive atom : Type :=
| Char (c : N)
| Digit.

Inductive term : Type :=
| One (a : atom)
| Times (a : atom) (n : nat).

Definition pattern := list term.

(** [\d] without the [u] flag is exactly [0-9]. *)
Definition is_digit (c : N) : bool := (48 <=? c) && (c <=? 57).

Definition atom_matches (a : atom) (c : N) : bool :=
  match a with
  | Char c' => c =? c'
  | Digit => is_digit c
  end.

(** Consume [n] characters that each match [a]; the rest of the input. *)
Fixpoint match_times (a : atom) (n : nat) (s : jsstring) : option jsstring :=
  match n with
  | O => Some s
  | S n' =>
      match s with
      | c :: rest => if atom_matches a c then match_times a n' rest else None
      | [] => None
      end
  end.

Definition match_term (t : term) (s : jsstring) : option jsstring :=
  match t with
  | One a => match_times a 1 s
  | Times a n => match_times a n s
  end.

Fixpoint match_seq (p : pattern) (s : jsstring) : option jsstring :=
  match p with
  | [] => Some s
  | t :: p' =>
      match match_term t s with
      | Some rest => match_seq p' rest
      | None => None
      end
  end.

(** [/^p$/.test(s)]: with neither the [m] flag nor alternatives, [^] is the
    start and [$] the very end of the input. *)
Definition test (p : pattern) (s : jsstring) : bool :=
  match match_seq p s with
  | Some [] => true
  | _ => false
  end.

End RegExp.

(** ** The validation library

    The part of Zod that [contatoSchema] uses: string schemas with their
    checks, an object schema over a shape, and [safeParse].  What belongs to
    the library's release rather than to this program, its e-mail pattern
    and its default error map, is an interface. *)
Module Zod.

(** [ZodParsedType], restricted to what a parsed body can hold. *)
Inductive ZodParsedType : Type :=
| t_string | t_nan | t_number | t_boolean
| t_undefined | t_null | t_array | t_object.

Definition getParsedType (data : value) : ZodParsedType :=
  match data with
  | VUndefined => t_undefined
  | VNull => t_null
  | VBool _ => t_boolean
  | VNumber x => if PrimFloat.is_nan x then t_nan else t_number
  | VString _ => t_string
  | VArray _ => t_array
  | VObject _ => t_object
  end.

Class Library : Type := {
  (** the pattern behind [.email()] *)
  emailRegex_test : jsstring -> bool;
  (** the default error map at an [invalid_type] issue: expected type,
      received type *)
  defaultErrorMap : ZodParsedType -> ZodParsedType -> jsstring
}.

Inductive ZodIssueCode : Type :=
| invalid_type | too_small | invalid_string.

Record ZodIssue : Type := {
  code : ZodIssueCode;
  path : list jsstring;
  message : jsstring
}.

Inductive ZodStringCheck : Type :=
| check_min (value : nat) (msg : jsstring)
| check_email (msg : jsstring)
| check_regex (regex : RegExp.pattern) (msg : jsstring).

(** A [ZodString]: the [message] given at creation, if any, and the checks
    in the order they were chained. *)
Record ZodString : Type := {
  create_message : option jsstring;
  checks : list ZodStringCheck
}.

Definition string (params : option jsstring) : ZodString :=
  {| create_message := params; checks := [] |}.

Definition add_check (s : ZodString) (c : ZodStringCheck) : ZodString :=
  {| create_message := create_message s; checks := checks s ++ [c] |}.

Definition min (n : nat) (msg : jsstring) (s : ZodString) : ZodString :=
  add_check s (check_min n msg).
Definition email (msg : jsstring) (s : ZodString) : ZodString :=
  add_check s (check_email msg).
Definition regex (p : RegExp.pattern) (msg : jsstring) (s : ZodString)
  : ZodString :=
  add_check s (check_regex p msg).

(** [z.object(shape)]: the keys in declaration order. *)
Definition ZodObject := list (jsstring * ZodString).

Inductive SafeParseReturn : Type :=
| SafeParseSuccess (data : value)
| SafeParseError (issues : list ZodIssue).

Definition success (r : SafeParseReturn) : bool :=
  match r with
  | SafeParseSuccess _ => true
  | SafeParseError _ => false
  end.

Definition error_issues (r : SafeParseReturn) : list ZodIssue :=
  match r with
  | SafeParseSuccess _ => []
  | SafeParseError issues => issues
  end.

Section Parse.
Context `{lib : Library}.

(** One check of a string schema on the string [s]: the issue it adds,
    if it fails. *)
Definition run_check (at_path : list jsstring) (s : jsstring)
    (c : ZodStringCheck) : list ZodIssue :=
  match c with
  | check_min n msg =>
      if (length s <? n)%nat
      then [{| code := too_small; path := at_path; message := msg |}]
      else []
  | check_email msg =>
      if emailRegex_test s then []
      else [{| code := invalid_string; path := at_path; message := msg |}]
  | check_regex p msg =>
      if RegExp.test p s then []
      else [{| code := invalid_string; path := at_path; message := msg |}]
  end.

(** [ZodString._parse]: data that is not a string adds one
    [invalid_type] issue (carrying the creation message when there is
    one, the default error map's otherwise) and stops; a string runs
    every check, each failing one adding its issue. *)
Definition parse_string (sch : ZodString) (at_path : list jsstring)
    (data : value) : list ZodIssue :=
  match data with
  | VString s => List.flat_map (run_check at_path s) (checks sch)
  | _ =>
      [{| code := invalid_type; path := at_path;
          message := default (defaultErrorMap t_string (getParsedType data))
                             (create_message sch) |}]
  end.

(** The loop of [ZodObject._parse] over the shape keys, reading
    [data[key]] for each. *)
Definition parse_shape (shape : ZodObject) (props : gmap (list N) value)
  : list ZodIssue :=
  List.flat_map
    (fun '(key, sch) => parse_string sch [key] (get_own props key)) shape.

(** The object [safeParse] returns on success: unknown keys stripped. *)
Definition strip (shape : ZodObject) (props : gmap (list N) value)
  : gmap (list N) value :=
  list_to_map
    (omap (fun '(key, _) => (fun v => (key, v)) <$> props !! key) shape).

(** [schema.safeParse(data)] for an object schema. *)
Definition safeParse (shape : ZodObject) (data : value) : SafeParseReturn :=
  match data with
  | VObject props =>
      match parse_shape shape props with
      | [] => SafeParseSuccess (VObject (strip shape props))
      | issues => SafeParseError issues
      end
  | _ =>
      SafeParseError
        [{| code := invalid_type; path := [];
            message := defaultErrorMap t_object (getParsedType data) |}]
  end.

End Parse.

End Zod.

(** ** The world the application talks to *)

(** A contact record: the attributes handed to [Contato.create]. *)
Record Contato : Type := {
  nome : value;
  telefone : value;
  email : value
}.

(** A call of [console.error(text, err)]. *)
Inductive console_entry : Type :=
| console_error_entry (text : jsstring) (err : error).

(** The callbacks handed to the runtime, by name. *)
Inductive callback : Type :=
| log_written.

Record World : Type := {
  (** the stored contact records, oldest first *)
  contatos : list Contato;
  (** [Some e]: the store is failing, its calls reject with [e] *)
  db_fault : option error;
  (** the files on disk, by path *)
  files : gmap (list N) (list N);
  (** [fs.appendFile] calls issued and not yet completed: path, data and
      callback *)
  pending_appends : list (jsstring * jsstring * callback);
  console : list console_entry;
  (** what [new Date().toISOString()] returns now *)
  now_iso : jsstring;
  (** [__dirname] *)
  dirname : jsstring
}.

Definition set_contatos (rows : list Contato) (w : World) : World :=
  {| contatos := rows; db_fault := db_fault w; files := files w;
     pending_appends := pending_appends w; console := console w;
     now_iso := now_iso w; dirname := dirname w |}.

Definition set_files (fs : gmap (list N) (list N)) (w : World) : World :=
  {| contatos := contatos w; db_fault := db_fault w; files := fs;
     pending_appends := pending_appends w; console := console w;
     now_iso := now_iso w; dirname := dirname w |}.

Definition set_pending_appends (q : list (jsstring * jsstring * callback)) (w : World)
  : World :=
  {| contatos := contatos w; db_fault := db_fault w; files := files w;
     pending_appends := q; console := console w;
     now_iso := now_iso w; dirname := dirname w |}.

Definition set_console (c : list console_entry) (w : World) : World :=
  {| contatos := contatos w; db_fault := db_fault w; files := files w;
     pending_appends := pending_appends w; console := c;
     now_iso := now_iso w; dirname := dirname w |}.

(** What a handler has sent on [res]. *)
Inductive reply : Type :=
| Sent (status : N) (text : jsstring)
| Rendered (status : N) (view : jsstring)
    (locals : list (jsstring * list Contato))
| ByExpress (status : N).

(** The response object: [res.statusCode] (200 until set) and the replies
    sent on it so far. *)
Record Response : Type := {
  statusCode : N;
  sent : list reply
}.

Definition fresh_res : Response := {| statusCode := 200; sent := [] |}.

Record State : Type := {
  world : World;
  res : Response
}.

Definition on_world (f : World -> World) (st : State) : State :=
  {| world := f (world st); res := res st |}.

Definition on_res (f : Response -> Response) (st : State) : State :=
  {| world := world st; res := f (res st) |}.

(** ** Handlers as state transformers that may throw *)

Definition M (A : Type) : Type := State -> (error + A) * State.

#[export] Instance M_ret : MRet M := fun A a st => (inr a, st).

#[export] Instance M_bind : MBind M := fun A B f m st =>
  match m st with
  | (inr a, st') => f a st'
  | (inl e, st') => (inl e, st')
  end.

Definition throw {A : Type} (e : error) : M A := fun st => (inl e, st).

(** [try { body } catch (error) { handler error }] *)
Definition try_catch {A : Type} (body : M A) (handler : error -> M A) : M A :=
  fun st =>
    match body st with
    | (inr a, st') => (inr a, st')
    | (inl e, st') => handler e st'
    end.

Definition modify (f : State -> State) : M unit := fun st => (inr tt, f st).

Definition lift_result {A : Type} (r : error + A) : M A :=
  match r with
  | inl e => throw e
  | inr a => mret a
  end.

(** [res.status(code)] *)
Definition res_status (code : N) : M unit :=
  modify (on_res (fun r => {| statusCode := code; sent := sent r |})).

(** [res.send(text)] *)
Definition res_send (text : jsstring) : M unit :=
  modify (on_res (fun r =>
    {| statusCode := statusCode r;
       sent := sent r ++ [Sent (statusCode r) text] |})).

(** [res.render(view, locals)] *)
Definition res_render (view : jsstring)
    (locals : list (jsstring * list Contato)) : M unit :=
  modify (on_res (fun r =>
    {| statusCode := statusCode r;
       sent := sent r ++ [Rendered (statusCode r) view locals] |})).

(** [console.error(text, err)] *)
Definition console_error (text : jsstring) (err : error) (w : World) : World :=
  set_console (console w ++ [console_error_entry text err]) w.

(** [new Date().toISOString()] *)
Definition Date_toISOString : M jsstring := fun st => (inr (now_iso (world st)), st).

(** [__dirname] *)
Definition module_dirname : M jsstring := fun st => (inr (dirname (world st)), st).

(** [path.join(dir, name)] for a normalised directory, as [__dirname] is,
    and a plain file name: one separator between the two, none added after
    a directory that ends with one (the root), and the name alone for an
    empty directory. *)
Definition path_join (dir name : jsstring) : jsstring :=
  match last dir with
  | None => name
  | Some c => if c =? 47 then dir ++ name else dir ++ lit "/" ++ name
  end.


(** Modelled from the spec: [Contato.create] of [./models], which is not
    part of the sources at hand.  It creates and persists a new contact
    record with the attributes given; a failing store rejects the call. *)
Definition Contato_create (attrs : Contato) : M unit := fun st =>
  match db_fault (world st) with
  | Some e => (inl e, st)
  | None =>
      (inr tt, on_world (fun w => set_contatos (contatos w ++ [attrs]) w) st)
  end.

(** Modelled from the spec: [Contato.findAll] of [./models], which is not
    part of the sources at hand.  It queries the store for all contact
    records, with no filtering and no pagination; a failing store rejects
    the call. *)
Definition Contato_findAll : M (list Contato) := fun st =>
  match db_fault (world st) with
  | Some e => (inl e, st)
  | None => (inr (contatos (world st)), st)
  end.

(** [fs.appendFile(file, data, callback)]: the append is handed to the
    runtime and the call returns at once. *)
Definition fs_appendFile (file data : jsstring) (cb : callback) : M unit :=
  modify (on_world (fun w =>
    set_pending_appends (pending_appends w ++ [(file, data, cb)]) w)).

(** The body of a callback; [log_written] is the function the access logger
    passes to [fs.appendFile]. *)
Definition run_callback (cb : callback) (err : option error) (w : World) : World :=
  match cb with
  | log_written =>
      match err with
      | Some e => console_error (lit "Erro ao escrever no arquivo de log:") e w
      | None => w
      end
  end.

(** The runtime completes the oldest pending append: with [None] the data
    reaches the end of the file (created when missing), with [Some e] the
    append failed; either way the callback runs. *)
Definition complete_append (outcome : option error) (w : World) : World :=
  match pending_appends w with
  | [] => w
  | (file, data, cb) :: rest =>
      let w' := set_pending_appends rest w in
      match outcome with
      | None =>
          run_callback cb None
            (set_files (<[file := default [] (files w' !! file) ++ data]> (files w')) w')
      | Some e => run_callback cb (Some e) w'
      end
  end.

(** ** The application of [app.js] *)

(** Where Express takes a request after the access logger: to the handler
    registered for its method and path, to its own 404 when none is, or to
    its error handler when a body parser rejects the body, with the status
    of the parser's error (400 for a malformed body, 413 for one over the
    size limit, and so on). *)
Inductive route : Type :=
| GET_root
| POST_root
| GET_contatos
| unmatched
| body_rejected (status : N).

Record Request : Type := {
  method : jsstring;
  originalUrl : jsstring;
  (** [req.body], as the body parsers left it *)
  body : value;
  matched : route
}.

Definition chr (a : ascii) : N := N_of_ascii a.

(** [/^\(\d{2}\) \d{5}-\d{4}$/] *)
Definition telefone_regex : RegExp.pattern :=
  [ RegExp.One (RegExp.Char (chr "("));
    RegExp.Times RegExp.Digit 2;
    RegExp.One (RegExp.Char (chr ")"));
    RegExp.One (RegExp.Char (chr " "));
    RegExp.Times RegExp.Digit 5;
    RegExp.One (RegExp.Char (chr "-"));
    RegExp.Times RegExp.Digit 4 ].

Definition msg_nome_obrigatorio : jsstring := lit "Campo nome é obrigatório".
Definition msg_nome_min : jsstring :=
  lit "O nome deve ter no mínimo 03 caracteres.".
Definition msg_email_obrigatorio : jsstring := lit "Campo e-mail é obrigatório.".
Definition msg_email_valido : jsstring := lit "Deve ser um e-mail válido.".
Definition msg_telefone_valido : jsstring := lit "Deve enviar um telefone válido".
Definition msg_salvo : jsstring := lit "Contato salvo com sucesso".
Definition msg_erro_buscar : jsstring := lit "Erro ao buscar contatos.".

Definition schema_nome : Zod.ZodString :=
  Zod.min 3 msg_nome_min (Zod.string (Some msg_nome_obrigatorio)).
Definition schema_email : Zod.ZodString :=
  Zod.email msg_email_valido (Zod.string (Some msg_email_obrigatorio)).
Definition schema_telefone : Zod.ZodString :=
  Zod.regex telefone_regex msg_telefone_valido (Zod.string None).

Definition key_nome : jsstring := lit "nome".
Definition key_email : jsstring := lit "email".
Definition key_telefone : jsstring := lit "telefone".

Definition contatoSchema : Zod.ZodObject :=
  [ (key_nome, schema_nome);
    (key_email, schema_email);
    (key_telefone, schema_telefone) ].

Section App.
Context `{lib : Zod.Library}.

(** [app.use((req, res, next) => ...)], the access logger. *)
Definition access_logger (req : Request) (next : M unit) : M unit :=
  now ← Date_toISOString;
  let log :=
    now ++ lit " - " ++ method req ++ lit " " ++ originalUrl req ++ [10] in
  dir ← module_dirname;
  fs_appendFile (path_join dir (lit "access.log")) log log_written;;
  next.

(** [app.get("/")] *)
Definition get_root (req : Request) : M unit :=
  res_render (lit "index") [].

(** [app.post("/")] *)
Definition post_root (req : Request) : M unit :=
  let contato := body req in
  let resultado := Zod.safeParse contatoSchema contato in
  if negb (Zod.success resultado) then
    let erros := List.map Zod.message (Zod.error_issues resultado) in
    res_status 400;;
    res_send (join (lit "; ") erros)
  else
    n ← lift_result (member contato key_nome);
    t ← lift_result (member contato key_telefone);
    e ← lift_result (member contato key_email);
    Contato_create {| nome := n; telefone := t; email := e |};;
    res_send msg_salvo.

(** [app.get("/contatos")] *)
Definition get_contatos (req : Request) : M unit :=
  try_catch
    (contatos ← Contato_findAll;
     res_render (lit "contatos") [(lit "contatos", contatos)])
    (fun error => 
       modify (on_world (console_error (lit "Erro ao buscar contatos:") error));;
       res_status 500;;
       res_send msg_erro_buscar).

(** Express's own replies: 404 when no route matches, the status of the
    parser's error when a body parser rejects the body. *)
Definition express_reply (status : N) : M unit :=
  modify (on_res (fun r =>
    {| statusCode := status; sent := sent r ++ [ByExpress status] |})).

Definition dispatch (req : Request) : M unit :=
  match matched req with
  | GET_root => get_root req
  | POST_root => post_root req
  | GET_contatos => get_contatos req
  | unmatched => express_reply 404
  | body_rejected status => express_reply status
  end.

(** One request through the middleware stack. *)
Definition app (req : Request) : M unit :=
  access_logger req (dispatch req).

(** Running a handler on a fresh response object. *)
Definition handle (h : Request -> M unit) (req : Request) (w : World)
  : (error + unit) * State :=
  h req {| world := w; res := fresh_res |}.

End App.

(** ** A concrete library and concrete requests *)
Module Sample.

Definition type_name (t : Zod.ZodParsedType) : jsstring :=
  match t with
  | Zod.t_string => lit "string"
  | Zod.t_nan => lit "nan"
  | Zod.t_number => lit "number"
  | Zod.t_boolean => lit "boolean"
  | Zod.t_undefined => lit "undefined"
  | Zod.t_null => lit "null"
  | Zod.t_array => lit "array"
  | Zod.t_object => lit "object"
  end.

(** The English error map of Zod 3 at an [invalid_type] issue. *)
Definition errorMap_en (expected received : Zod.ZodParsedType) : jsstring :=
  match received with
  | Zod.t_undefined => lit "Required"
  | _ =>
      lit "Expected " ++ type_name expected ++ lit ", received "
        ++ type_name received
  end.

(** The text before the first [c] and, when [c] occurs, the text after it. *)
Fixpoint split_at (c : N) (s : jsstring) : jsstring * option jsstring :=
  match s with
  | [] => ([], None)
  | x :: rest =>
      if x =? c then ([], Some rest)
      else let '(before, after) := split_at c rest in (x :: before, after)
  end.

(** The pieces of [s] between the occurrences of [c]; [piece] is the piece
    being read, backwards. *)
Fixpoint pieces (c : N) (piece : jsstring) (s : jsstring) : list jsstring :=
  match s with
  | [] => [rev piece]
  | x :: rest =>
      if x =? c then rev piece :: pieces c [] rest
      else pieces c (x :: piece) rest
  end.

Definition is_letter (c : N) : bool :=
  ((65 <=? c) && (c <=? 90)) || ((97 <=? c) && (c <=? 122)).

Definition is_alnum (c : N) : bool := is_letter c || RegExp.is_digit c.

Definition one_of (cs : string) (c : N) : bool := existsb (N.eqb c) (lit cs).

(** Whether two dots follow each other somewhere in [s]. *)
Fixpoint has_two_dots (s : jsstring) : bool :=
  match s with
  | a :: (b :: _) as rest => ((a =? 46) && (b =? 46)) || has_two_dots rest
  | _ => false
  end.

(** A label of a domain: a letter or digit, then letters, digits and
    hyphens. *)
Definition is_label (l : jsstring) : bool :=
  match l with
  | [] => false
  | c :: rest => is_alnum c && forallb (fun x => is_alnum x || (x =? 45)) rest
  end.

(** A top-level domain: two letters or more. *)
Definition is_tld (l : jsstring) : bool :=
  (2 <=? length l)%nat && forallb is_letter l.

(** A domain: one label or more, each followed by a dot, then the
    top-level domain. *)
Definition is_domain (d : jsstring) : bool :=
  match rev (pieces 46 [] d) with
  | tld :: (_ :: _) as labels => is_tld tld && forallb is_label labels
  | _ => false
  end.

(** A local part: letters, digits and the characters [_ ' + - .], the last
    one neither a dot nor a quote. *)
Definition is_local (l : jsstring) : bool :=
  match last l with
  | Some c =>
      (is_alnum c || one_of "_+-" c)
      && forallb (fun x => is_alnum x || one_of "_'+-." x) l
  | None => false
  end.

(** The e-mail pattern of Zod 3.23, for running examples: no leading dot,
    no two dots in a row, a local part, the first [@], and a domain, all
    letters in either case. *)
Definition email_test (s : jsstring) : bool :=
  negb (match s with c :: _ => c =? 46 | [] => false end)
  && negb (has_two_dots s)
  && match split_at (chr "@") s with
     | (local, Some domain) => is_local local && is_domain domain
     | _ => false
     end.

#[export] Instance library : Zod.Library :=
  {| Zod.emailRegex_test := email_test; Zod.defaultErrorMap := errorMap_en |}.

(** The object of a JSON text with these members; of two members with the
    same key the later one stays, as with [JSON.parse]. *)
Definition object (fields : list (string * value)) : value :=
  VObject (list_to_map (rev (List.map (fun '(k, v) => (lit k, v)) fields))).

Definition ana : value :=
  object [ ("nome", VString (lit "Ana Silva"));
           ("email", VString (lit "ana@example.com"));
           ("telefone", VString (lit "(11) 91234-5678")) ]%string.

Definition post (b : value) : Request :=
  {| method := lit "POST"; originalUrl := lit "/"; body := b;
     matched := POST_root |}.

Definition curto : value :=
  object [ ("nome", VString (lit "Al"));
           ("email", VString (lit "ana@example.com"));
           ("telefone", VString (lit "(11) 91234-5678")) ]%string.

Definition sem_hifen : value :=
  object [ ("nome", VString (lit "Ana Silva"));
           ("email", VString (lit "ana@example.com"));
           ("telefone", VString (lit "(11) 912345678")) ]%string.

Definition tudo_errado : value :=
  object [ ("nome", VString (lit "Al"));
           ("email", VString (lit "ana"));
           ("telefone", VString (lit "11912345678")) ]%string.

Definition sem_telefone : value :=
  object [ ("nome", VString (lit "Ana Silva"));
           ("email", VString (lit "ana@example.com")) ]%string.

Definition ana_admin : value :=
  object [ ("nome", VString (lit "Ana Silva"));
           ("email", VString (lit "ana@example.com"));
           ("telefone", VString (lit "(11) 91234-5678"));
           ("admin", VBool true) ]%string.

Definition fields (b : value) : gmap (list N) value :=
  match b with
  | VObject props => props
  | _ => ∅
  end.

Definition world0 : World :=
  {| contatos := []; db_fault := None; files := ∅; pending_appends := [];
     console := []; now_iso := lit "2024-05-01T12:00:00.000Z";
     dirname := lit "/srv/app" |}.

Definition store_down : World :=
  {| contatos := []; db_fault := Some (Error (lit "SequelizeConnectionError"));
     files := ∅; pending_appends := [];
     console := []; now_iso := lit "2024-05-01T12:00:00.000Z";
     dirname := lit "/srv/app" |}.

End Sample.

(** ** What the specification says, in its own words *)

(** The words matched by a pattern of the fragment: the concatenation of
    one word per term, each as long as the term's count and made of
    characters of the term's class. *)
Definition term_words (t : RegExp.term) (w : jsstring) : Prop :=
  match t with
  | RegExp.One a => length w = 1%nat /\ Forall (fun c => RegExp.atom_matches a c = true) w
  | RegExp.Times a n => length w = n /\ Forall (fun c => RegExp.atom_matches a c = true) w
  end.

Fixpoint pattern_words (p : RegExp.pattern) (w : jsstring) : Prop :=
  match p with
  | [] => w = []
  | t :: p' => exists w1 w2, w = w1 ++ w2 /\ term_words t w1 /\ pattern_words p' w2
  end.

Definition digit (c : N) : Prop := chr "0" <= c <= chr "9".

(** [(##) #####-####]: two digits in parentheses, a space, five digits, a
    hyphen, four digits, and nothing before or after. *)
Definition telefone_shape (s : jsstring) : Prop :=
  exists area prefix line,
    length area = 2%nat /\ Forall digit area /\
    length prefix = 5%nat /\ Forall digit prefix /\
    length line = 4%nat /\ Forall digit line /\
    s = [chr "("] ++ area ++ [chr ")"; chr " "] ++ prefix ++ [chr "-"] ++ line.

Section Rules.
Context `{lib : Zod.Library}.

(** The messages of the name rules a value violates: required and text, then
    at least three characters. *)
Definition nome_rule (v : value) (msgs : list jsstring) : Prop :=
  match v with
  | VString s =>
      ((length s < 3)%nat /\ msgs = [msg_nome_min]) \/
      ((3 <= length s)%nat /\ msgs = [])
  | _ => msgs = [msg_nome_obrigatorio]
  end.

(** The messages of the e-mail rules a value violates: required and text,
    then the library's e-mail syntax. *)
Definition email_rule (v : value) (msgs : list jsstring) : Prop :=
  match v with
  | VString s =>
      (Zod.emailRegex_test s = false /\ msgs = [msg_email_valido]) \/
      (Zod.emailRegex_test s = true /\ msgs = [])
  | _ => msgs = [msg_email_obrigatorio]
  end.

(** The messages of the phone rules a value violates: text, with the
    library's own wording as no message was declared, then the fixed
    shape. *)
Definition telefone_rule (v : value) (msgs : list jsstring) : Prop :=
  match v with
  | VString s =>
      (~ telefone_shape s /\ msgs = [msg_telefone_valido]) \/
      (telefone_shape s /\ msgs = [])
  | _ => msgs = [Zod.defaultErrorMap Zod.t_string (Zod.getParsedType v)]
  end.

(** [issues.map(issue => issue.message)] *)
Definition messages (issues : list Zod.ZodIssue) : list jsstring :=
  List.map Zod.message issues.

(** A body whose three fields satisfy the schema, with the field values. *)
Definition valid_submission (b : value) (n e t : jsstring) : Prop :=
  exists props,
    b = VObject props /\
    props !! key_nome = Some (VString n) /\ (3 <= length n)%nat /\
    props !! key_email = Some (VString e) /\ Zod.emailRegex_test e = true /\
    props !! key_telefone = Some (VString t) /\ telefone_shape t.

(** The state a handler leaves when it answers [text] with [status] and
    touches nothing else. *)
Definition answered (w : World) (status : N) (text : jsstring) : State :=
  {| world := w;
     res := {| statusCode := status; sent := [Sent status text] |} |}.

End Rules.

(** ** Requests one after another *)

(** The characters a phone of the schema is made of. *)
Definition telefone_char (c : N) : Prop :=
  digit c \/ c = chr "(" \/ c = chr ")" \/ c = chr " " \/ c = chr "-".

(** A code point outside the basic plane, a surrogate pair in UTF-16. *)
Definition astral (cp : N) : bool := 65536 <=? cp.

(** The properties of a body that is an object; no property otherwise. *)
Definition props_of (b : value) : gmap (list N) value :=
  match b with
  | VObject props => props
  | _ => ∅
  end.

(** The attributes [app.post("/")] reads off the body of a request:
    [{ nome: contato.nome, telefone: contato.telefone, email: contato.email }]. *)
Definition posted (req : Request) : Contato :=
  {| nome := get_own (props_of (body req)) key_nome;
     telefone := get_own (props_of (body req)) key_telefone;
     email := get_own (props_of (body req)) key_email |}.


(** The template literal of the access logger. *)
Definition log_line (now : jsstring) (req : Request) : jsstring :=
  now ++ lit " - " ++ method req ++ lit " " ++ originalUrl req ++ [10].




Section Serving.
Context `{lib : Zod.Library}.

(** A contact record whose three attributes satisfy the schema. *)
Definition valid_record (c : Contato) : Prop :=
  exists n e t,
    c = {| nome := VString n; telefone := VString t; email := VString e |} /\
    (3 <= length n)%nat /\ Zod.emailRegex_test e = true /\ telefone_shape t.

(** Whether [app.post("/")] reaches [Contato.create] and the store takes the
    record: the body passes [safeParse] and the store is not failing. *)
Definition creates (req : Request) (w : World) : bool :=
  match matched req with
  | POST_root =>
      Zod.success (Zod.safeParse contatoSchema (body req))
      && bool_decide (db_fault w = None)
  | _ => false
  end.

(** A submission that passes validation. *)
Definition valid_post (req : Request) : Prop :=
  matched req = POST_root /\
  Zod.success (Zod.safeParse contatoSchema (body req)) = true.

(** The world after one request went through the application, on a
    response object of its own. *)
Definition serve (w : World) (req : Request) : World :=
  world (handle app req w).2.

Definition serve_all (reqs : list Request) (w : World) : World :=
  fold_left serve reqs w.



End Serving.

(** ** More concrete requests *)
Module Cases.

Definition get_list : Request :=
  {| method := lit "GET"; originalUrl := lit "/contatos"; body := VObject ∅;
     matched := GET_contatos |}.

Definition ana_record : Contato :=
  {| nome := VString (lit "Ana Silva");
     telefone := VString (lit "(11) 91234-5678");
     email := VString (lit "ana@example.com") |}.

Definition stocked : World := set_contatos [ana_record] Sample.world0.

Definition disk_full : error := Error (lit "ENOSPC").


Definition nome_numero : value :=
  Sample.object [ ("nome", VNumber 42%float);
                  ("email", VString (lit "ana@example.com"));
                  ("telefone", VString (lit "(11) 91234-5678")) ]%string.

Definition telefone_numero : value :=
  Sample.object [ ("nome", VString (lit "Ana Silva"));
                  ("email", VString (lit "ana@example.com"));
                  ("telefone", VNumber 11912345678%float) ]%string.

Definition bia : value :=
  Sample.object [ ("nome", VString (lit "Bia Souza"));
                  ("email", VString (lit "bia@example.org"));
                  ("telefone", VString (lit "(21) 99876-5432")) ]%string.

Definition bia_record : Contato :=
  {| nome := VString (lit "Bia Souza");
     telefone := VString (lit "(21) 99876-5432");
     email := VString (lit "bia@example.org") |}.

Definition mixed_traffic : list Request :=
  [ Sample.post Sample.ana; Sample.post Sample.curto; get_list;
    Sample.post bia; Sample.post Sample.ana ].

Definition dois_erros : value :=
  Sample.object [ ("nome", VString (lit "Al"));
                  ("email", VString (lit "ana"));
                  ("telefone", VString (lit "(11) 91234-5678")) ]%string.

(** A world in which the append of an earlier request is still pending. *)
Definition busy : World :=
  set_pending_appends
    [(lit "/srv/app/access.log", lit "2024-05-01T11:59:59.000Z - GET /" ++ [10],
      log_written)]
    Sample.world0.

Definition busy_state : State := {| world := busy; res := fresh_res |}.

(** The world after the example submission went through the application
    while that earlier append was pending. *)
Definition busy_after : World :=
  world (app (lib := Sample.library) (Sample.post Sample.ana) busy_state).2.

Definition email_ruim : value :=
  Sample.object [ ("nome", VString (lit "Ana Silva"));
                  ("email", VString (lit "ana.example.com"));
                  ("telefone", VString (lit "(11) 91234-5678")) ]%string.

End Cases.

(** ** The regular expression of the phone rule *)

Lemma match_times_spec a n s rest :
  RegExp.match_times a n s = Some rest <->
  exists w, length w = n /\ Forall (fun c => RegExp.atom_matches a c = true) w
            /\ s = w ++ rest.
Proof.
  revert s. induction n as [|n IH]; intros s; simpl.
  - split.
    + intros [= ->]. exists []. by repeat split.
    + intros (w & Hlen & _ & ->). destruct w; [done | discriminate].
  - destruct s as [|c s].
    + split; [done |]. intros (w & Hlen & _ & Hs).
      destruct w; discriminate.
    + destruct (RegExp.atom_matches a c) eqn:Hc.
      * rewrite IH. split.
        -- intros (w & Hlen & Hall & ->). exists (c :: w).
           repeat split; [by simpl; f_equal | by constructor].
        -- intros (w & Hlen & Hall & Hs). destruct w as [|c' w]; [discriminate |].
           injection Hs as -> ->. injection Hlen as Hlen.
           exists w. by inversion Hall; subst.
      * split; [done |]. intros (w & Hlen & Hall & Hs).
        destruct w as [|c' w]; [discriminate |].
        injection Hs as -> ->. inversion Hall; subst. congruence.
Qed.

Lemma match_term_spec t s rest :
  RegExp.match_term t s = Some rest <-> exists w, term_words t w /\ s = w ++ rest.
Proof.
  destruct t as [a | a n]; unfold RegExp.match_term, term_words;
    rewrite match_times_spec; split; intros (w & H); exists w; tauto.
Qed.

Lemma match_seq_spec p s rest :
  RegExp.match_seq p s = Some rest <-> exists w, pattern_words p w /\ s = w ++ rest.
Proof.
  revert s. induction p as [|t p IH]; intros s; simpl.
  - split.
    + intros [= ->]. by exists [].
    + by intros (w & -> & ->).
  - destruct (RegExp.match_term t s) as [mid|] eqn:Ht.
    + apply match_term_spec in Ht as (w1 & Hw1 & ->). rewrite IH. split.
      * intros (w2 & Hw2 & ->). exists (w1 ++ w2). rewrite <- app_assoc.
        split; [by exists w1, w2 | done].
      * intros (w & (v1 & v2 & -> & Hv1 & Hv2) & Heq).
        assert (length v1 = length w1) as Hlen.
        { destruct t; simpl in *; destruct Hv1, Hw1; congruence. }
        rewrite <- app_assoc in Heq.
        apply app_inj_1 in Heq as [-> ->]; [| done]. by exists v2.
    + split; [done |]. intros (w & (v1 & v2 & -> & Hv1 & Hv2) & ->).
      assert (RegExp.match_term t ((v1 ++ v2) ++ rest) = Some (v2 ++ rest)) as E.
      { apply match_term_spec. exists v1. by rewrite <- app_assoc. }
      congruence.
Qed.

(** [test] accepts exactly the words of the pattern. *)
Lemma test_spec p s : RegExp.test p s = true <-> pattern_words p s.
Proof.
  unfold RegExp.test. split.
  - destruct (RegExp.match_seq p s) as [[|c r]|] eqn:E; try done.
    intros _. apply match_seq_spec in E as (w & Hw & ->). by rewrite app_nil_r.
  - intros Hw.
    assert (RegExp.match_seq p s = Some []) as ->; [| done].
    apply match_seq_spec. exists s. by rewrite app_nil_r.
Qed.

Lemma digit_matches c : RegExp.atom_matches RegExp.Digit c = true <-> digit c.
Proof.
  unfold digit, chr. simpl. unfold RegExp.is_digit.
  rewrite andb_true_iff, !N.leb_le. reflexivity.
Qed.

Lemma Forall_digit_matches w :
  Forall (fun c => RegExp.atom_matches RegExp.Digit c = true) w <-> Forall digit w.
Proof. apply Forall_iff. intros c. apply digit_matches. Qed.

Lemma char_word c w :
  term_words (RegExp.One (RegExp.Char c)) w <-> w = [c].
Proof.
  simpl. split.
  - intros [Hlen Hall]. destruct w as [|x [|y w]]; try discriminate.
    inversion Hall as [|? ? Hx _]; subst. by apply N.eqb_eq in Hx as ->.
  - intros ->. split; [done |]. constructor; [apply N.eqb_refl | constructor].
Qed.

(** The phone pattern of the source denotes the shape the specification
    describes. *)
Lemma telefone_regex_words s : pattern_words telefone_regex s <-> telefone_shape s.
Proof.
  unfold telefone_regex, telefone_shape. split.
  - intros (w1 & r1 & -> & H1 & w2 & r2 & -> & [L2 D2] & w3 & r3 & -> & H3
            & w4 & r4 & -> & H4 & w5 & r5 & -> & [L5 D5] & w6 & r6 & -> & H6
            & w7 & r7 & -> & [L7 D7] & ->).
    apply char_word in H1 as ->, H3 as ->, H4 as ->, H6 as ->.
    apply Forall_digit_matches in D2, D5, D7.
    exists w2, w5, w7. rewrite app_nil_r. by repeat split.
  - intros (area & prefix & line & L2 & D2 & L5 & D5 & L7 & D7 & ->).
    apply Forall_digit_matches in D2, D5, D7.
    exists [chr "("], (area ++ [chr ")"; chr " "] ++ prefix ++ [chr "-"] ++ line).
    split; [done |]. split; [by apply char_word |].
    exists area, ([chr ")"; chr " "] ++ prefix ++ [chr "-"] ++ line).
    split; [done |]. split; [done |].
    exists [chr ")"], ([chr " "] ++ prefix ++ [chr "-"] ++ line).
    split; [done |]. split; [by apply char_word |].
    exists [chr " "], (prefix ++ [chr "-"] ++ line).
    split; [done |]. split; [by apply char_word |].
    exists prefix, ([chr "-"] ++ line).
    split; [done |]. split; [done |].
    exists [chr "-"], line.
    split; [done |]. split; [by apply char_word |].
    exists line, []. by rewrite app_nil_r.
Qed.

Lemma telefone_test_shape s :
  RegExp.test telefone_regex s = true <-> telefone_shape s.
Proof. rewrite test_spec. apply telefone_regex_words. Qed.

Lemma telefone_test_not_shape s :
  RegExp.test telefone_regex s = false <-> ~ telefone_shape s.
Proof.
  rewrite <- telefone_test_shape. destruct (RegExp.test telefone_regex s); split;
    try done; intros H; by destruct H.
Qed.

(** ** Joining messages *)

Lemma join_cons sep x xs :
  join sep (x :: xs) = x ++ match xs with [] => [] | _ => sep ++ join sep xs end.
Proof. destruct xs; simpl; [by rewrite app_nil_r | done]. Qed.

(** Every joined string occurs in the result of [join]. *)
Lemma includes_join sep m xs : In m xs -> includes (join sep xs) m.
Proof.
  induction xs as [|x xs IH]; [done |]. rewrite join_cons. intros [-> | Hin].
  - by exists [], (match xs with [] => [] | _ => sep ++ join sep xs end).
  - destruct xs as [|y ys]; [done |].
    destruct (IH Hin) as (pre & post & ->).
    exists (x ++ sep ++ pre), post. by rewrite <- !app_assoc.
Qed.

Lemma join_snoc sep xs x :
  join sep (xs ++ [x]) =
  match xs with [] => [] | _ => join sep xs ++ sep end ++ x.
Proof.
  induction xs as [|y ys IH]; [done |].
  change ((y :: ys) ++ [x]) with (y :: (ys ++ [x])).
  rewrite !join_cons, IH.
  destruct ys as [|z zs]; simpl; by rewrite <- ?app_assoc.
Qed.

(** [join] written out: the first string, then each later one after the
    separator. *)
Lemma join_explicit sep x xs :
  join sep (x :: xs) = x ++ concat (List.map (fun m => sep ++ m) xs).
Proof.
  revert x. induction xs as [|y ys IH]; intros x.
  - simpl. by rewrite app_nil_r.
  - rewrite join_cons, IH. simpl. by rewrite <- app_assoc.
Qed.

(** ** The schema, field by field *)
Section Schema.
Context `{lib : Zod.Library}.

Lemma get_own_string props key s :
  get_own props key = VString s <-> props !! key = Some (VString s).
Proof.
  unfold get_own. destruct (props !! key) as [v|]; simpl; split; congruence.
Qed.

Lemma get_own_absent props key :
  props !! key = None -> get_own props key = VUndefined.
Proof. unfold get_own. by intros ->. Qed.

Lemma parse_nome_string p s :
  Zod.parse_string schema_nome p (VString s) =
  if (length s <? 3)%nat
  then [{| Zod.code := Zod.too_small; Zod.path := p; Zod.message := msg_nome_min |}]
  else [].
Proof. simpl. by destruct (length s <? 3)%nat. Qed.

Lemma parse_email_string p s :
  Zod.parse_string schema_email p (VString s) =
  if Zod.emailRegex_test s then []
  else [{| Zod.code := Zod.invalid_string; Zod.path := p;
           Zod.message := msg_email_valido |}].
Proof. simpl. by destruct (Zod.emailRegex_test s). Qed.

Lemma parse_telefone_string p s :
  Zod.parse_string schema_telefone p (VString s) =
  if RegExp.test telefone_regex s then []
  else [{| Zod.code := Zod.invalid_string; Zod.path := p;
           Zod.message := msg_telefone_valido |}].
Proof.
  unfold Zod.parse_string, schema_telefone. simpl Zod.checks.
  unfold flat_map, Zod.run_check. by destruct (RegExp.test telefone_regex s).
Qed.

(** The issues of each field are the messages the specification lists. *)
Lemma nome_rule_parse p v :
  nome_rule v (messages (Zod.parse_string schema_nome p v)).
Proof.
  destruct v; try done. unfold nome_rule. rewrite parse_nome_string.
  destruct (Nat.ltb_spec (length s) 3); [left | right]; by split.
Qed.

Lemma email_rule_parse p v :
  email_rule v (messages (Zod.parse_string schema_email p v)).
Proof.
  destruct v; try done. unfold email_rule. rewrite parse_email_string.
  destruct (Zod.emailRegex_test s); [right | left]; by split.
Qed.

Lemma telefone_rule_parse p v :
  telefone_rule v (messages (Zod.parse_string schema_telefone p v)).
Proof.
  destruct v; try done. unfold telefone_rule. rewrite parse_telefone_string.
  destruct (RegExp.test telefone_regex s) eqn:E; [right | left]; split; try done.
  - by apply telefone_test_shape.
  - by apply telefone_test_not_shape.
Qed.

(** Each rule names one list of messages. *)
Lemma nome_rule_unique v m1 m2 : nome_rule v m1 -> nome_rule v m2 -> m1 = m2.
Proof.
  destruct v; simpl; try congruence.
  intros [[? ->] | [? ->]] [[? ->] | [? ->]]; try done; lia.
Qed.

Lemma email_rule_unique v m1 m2 : email_rule v m1 -> email_rule v m2 -> m1 = m2.
Proof.
  destruct v; simpl; try congruence.
  intros [[? ->] | [? ->]] [[? ->] | [? ->]]; try done; congruence.
Qed.

Lemma telefone_rule_unique v m1 m2 :
  telefone_rule v m1 -> telefone_rule v m2 -> m1 = m2.
Proof.
  destruct v; simpl; try congruence.
  intros [[? ->] | [? ->]] [[? ->] | [? ->]]; done.
Qed.

(** The messages of an object's three fields are those the rules name. *)
Lemma messages_by_rules props nome_msgs email_msgs telefone_msgs :
  nome_rule (default VUndefined (props !! key_nome)) nome_msgs ->
  email_rule (default VUndefined (props !! key_email)) email_msgs ->
  telefone_rule (default VUndefined (props !! key_telefone)) telefone_msgs ->
  messages (Zod.parse_shape contatoSchema props)
  = nome_msgs ++ email_msgs ++ telefone_msgs.
Proof.
  intros Hn He Ht.
  assert (Zod.parse_shape contatoSchema props =
          Zod.parse_string schema_nome [key_nome] (get_own props key_nome)
          ++ Zod.parse_string schema_email [key_email] (get_own props key_email)
          ++ Zod.parse_string schema_telefone [key_telefone]
               (get_own props key_telefone)) as ->.
  { unfold Zod.parse_shape, contatoSchema, flat_map. by rewrite app_nil_r. }
  unfold messages. rewrite !map_app. f_equal; [| f_equal].
  - eapply nome_rule_unique; [apply nome_rule_parse | exact Hn].
  - eapply email_rule_unique; [apply email_rule_parse | exact He].
  - eapply telefone_rule_unique; [apply telefone_rule_parse | exact Ht].
Qed.

Lemma parse_shape_contato props :
  Zod.parse_shape contatoSchema props =
  Zod.parse_string schema_nome [key_nome] (get_own props key_nome)
  ++ Zod.parse_string schema_email [key_email] (get_own props key_email)
  ++ Zod.parse_string schema_telefone [key_telefone] (get_own props key_telefone).
Proof. unfold Zod.parse_shape, contatoSchema, flat_map. by rewrite app_nil_r. Qed.

Lemma parse_nome_ok p v :
  Zod.parse_string schema_nome p v = [] <->
  exists s, v = VString s /\ (3 <= length s)%nat.
Proof.
  destruct v; try (split; [done | by intros (? & ? & ?)]).
  rewrite parse_nome_string. destruct (Nat.ltb_spec (length s) 3); split; try done.
  - intros (s' & [= <-] & ?). lia.
  - intros _. by exists s.
Qed.

Lemma parse_email_ok p v :
  Zod.parse_string schema_email p v = [] <->
  exists s, v = VString s /\ Zod.emailRegex_test s = true.
Proof.
  destruct v; try (split; [done | by intros (? & ? & ?)]).
  rewrite parse_email_string. destruct (Zod.emailRegex_test s) eqn:E; split; try done.
  - intros _. by exists s.
  - intros (s' & [= <-] & ?). congruence.
Qed.

Lemma parse_telefone_ok p v :
  Zod.parse_string schema_telefone p v = [] <->
  exists s, v = VString s /\ telefone_shape s.
Proof.
  destruct v; try (split; [done | by intros (? & ? & ?)]).
  rewrite parse_telefone_string.
  destruct (RegExp.test telefone_regex s) eqn:E; split; try done.
  - intros _. exists s. split; [done | by apply telefone_test_shape].
  - intros (s' & [= <-] & Hs). apply telefone_test_shape in Hs. congruence.
Qed.

(** [safeParse] succeeds exactly on the valid submissions. *)
Lemma safeParse_success b :
  Zod.success (Zod.safeParse contatoSchema b) = true <->
  exists n e t, valid_submission b n e t.
Proof.
  unfold valid_submission. split.
  - destruct b; try done. unfold Zod.safeParse.
    destruct (Zod.parse_shape contatoSchema props) eqn:E; [intros _ | done].
    rewrite parse_shape_contato in E.
    apply app_eq_nil in E as [En E]. apply app_eq_nil in E as [Ee Et].
    apply parse_nome_ok in En as (n & Hn & Hlen).
    apply parse_email_ok in Ee as (e & He & Hmail).
    apply parse_telefone_ok in Et as (t & Ht & Hshape).
    apply get_own_string in Hn, He, Ht.
    exists n, e, t, props. by repeat split.
  - intros (n & e & t & props & -> & Hn & Hlen & He & Hmail & Ht & Hshape).
    apply get_own_string in Hn, He, Ht. unfold Zod.safeParse.
    rewrite parse_shape_contato, Hn, He, Ht.
    assert (Zod.parse_string schema_nome [key_nome] (VString n) = []) as ->.
    { apply parse_nome_ok. by exists n. }
    assert (Zod.parse_string schema_email [key_email] (VString e) = []) as ->.
    { apply parse_email_ok. by exists e. }
    assert (Zod.parse_string schema_telefone [key_telefone] (VString t) = []) as ->.
    { apply parse_telefone_ok. by exists t. }
    done.
Qed.

End Schema.

(** ** The handlers, step by step *)
Section Handlers.
Context `{lib : Zod.Library}.

(** The failure branch of [app.post("/")]. *)
Lemma post_root_invalid req st :
  Zod.success (Zod.safeParse contatoSchema (body req)) = false ->
  post_root req st =
  (inr tt,
   {| world := world st;
      res := {| statusCode := 400;
                sent := sent (res st) ++
                  [Sent 400 (join (lit "; ")
                     (messages (Zod.error_issues
                        (Zod.safeParse contatoSchema (body req)))))] |} |}).
Proof. intros H. unfold post_root. cbv zeta. rewrite H. reflexivity. Qed.

(** The success branch of [app.post("/")]. *)
Lemma post_root_valid req st props :
  body req = VObject props ->
  Zod.success (Zod.safeParse contatoSchema (body req)) = true ->
  post_root req st =
  (Contato_create {| nome := get_own props key_nome;
                     telefone := get_own props key_telefone;
                     email := get_own props key_email |};;
   res_send msg_salvo) st.
Proof.
  intros Hb H. unfold post_root. cbv zeta. rewrite H. rewrite Hb. reflexivity.
Qed.

Lemma success_is_object b :
  Zod.success (Zod.safeParse contatoSchema b) = true -> exists props, b = VObject props.
Proof. destruct b; try done. intros _. by exists props. Qed.

Lemma get_contatos_run req st :
  get_contatos req st =
  match db_fault (world st) with
  | None =>
      (inr tt,
       {| world := world st;
          res := {| statusCode := statusCode (res st);
                    sent := sent (res st) ++
                      [Rendered (statusCode (res st)) (lit "contatos")
                         [(lit "contatos", contatos (world st))]] |} |})
  | Some e =>
      (inr tt,
       {| world := console_error (lit "Erro ao buscar contatos:") e (world st);
          res := {| statusCode := 500;
                    sent := sent (res st) ++ [Sent 500 msg_erro_buscar] |} |})
  end.
Proof.
  unfold get_contatos, try_catch, Contato_findAll, mbind, M_bind.
  by destruct (db_fault (world st)).
Qed.

(** No handler issues or completes a file append. *)
Lemma dispatch_pending req st :
  pending_appends (world (dispatch req st).2) = pending_appends (world st).
Proof.
  unfold dispatch. destruct (matched req); try reflexivity.
  - destruct (Zod.success (Zod.safeParse contatoSchema (body req))) eqn:H.
    + destruct (success_is_object _ H) as [props Hb].
      rewrite (post_root_valid _ _ _ Hb H).
      unfold Contato_create, mbind, M_bind.
      by destruct (db_fault (world st)).
    + by rewrite post_root_invalid.
  - rewrite get_contatos_run. by destruct (db_fault (world st)).
Qed.

(** No handler touches the files. *)
Lemma dispatch_files req st : files (world (dispatch req st).2) = files (world st).
Proof.
  unfold dispatch. destruct (matched req); try reflexivity.
  - destruct (Zod.success (Zod.safeParse contatoSchema (body req))) eqn:H.
    + destruct (success_is_object _ H) as [props Hb].
      rewrite (post_root_valid _ _ _ Hb H).
      unfold Contato_create, mbind, M_bind.
      by destruct (db_fault (world st)).
    + by rewrite post_root_invalid.
  - rewrite get_contatos_run. by destruct (db_fault (world st)).
Qed.

Lemma safeParse_object_issues shape props :
  Zod.error_issues (Zod.safeParse shape (VObject props)) = Zod.parse_shape shape props.
Proof. unfold Zod.safeParse. by destruct (Zod.parse_shape shape props). Qed.

Lemma safeParse_object_success shape props :
  Zod.success (Zod.safeParse shape (VObject props)) = true
  <-> Zod.parse_shape shape props = [].
Proof. unfold Zod.safeParse. by destruct (Zod.parse_shape shape props). Qed.

(** A handler neither reads nor changes the queue of pending appends. *)
Lemma dispatch_requeue req st q :
  dispatch req (on_world (set_pending_appends q) st) =
  ((dispatch req st).1, on_world (set_pending_appends q) (dispatch req st).2).
Proof.
  unfold dispatch. destruct (matched req); try reflexivity.
  - destruct (Zod.success (Zod.safeParse contatoSchema (body req))) eqn:H.
    + destruct (success_is_object _ H) as [props Hb].
      rewrite !(post_root_valid _ _ _ Hb H).
      unfold Contato_create, mbind, M_bind. simpl.
      by destruct (db_fault (world st)).
    + by rewrite !post_root_invalid.
  - rewrite !get_contatos_run. simpl. by destruct (db_fault (world st)).
Qed.


(** The access logger queues its line and hands over to the next handler. *)
Lemma app_run req st :
  app req st =
  dispatch req
    (on_world
       (fun w =>
          set_pending_appends
            (pending_appends w ++
               [(path_join (dirname w) (lit "access.log"),
                 now_iso w ++ lit " - " ++ method req ++ lit " "
                   ++ originalUrl req ++ [10],
                 log_written)]) w) st).
Proof. reflexivity. Qed.

(** The application is its handler plus one queued append. *)
Lemma app_split req st :
  app req st =
  ((dispatch req st).1,
   on_world
     (set_pending_appends
        (pending_appends (world st) ++
           [(path_join (dirname (world st)) (lit "access.log"),
             log_line (now_iso (world st)) req, log_written)]))
     (dispatch req st).2).
Proof. rewrite app_run, <- dispatch_requeue. reflexivity. Qed.

(** The answer to an object body that fails validation. *)
Lemma post_object_invalid req w props :
  body req = VObject props ->
  Zod.parse_shape contatoSchema props <> [] ->
  handle post_root req w =
  (inr tt,
   answered w 400
     (join (lit "; ") (messages (Zod.parse_shape contatoSchema props)))).
Proof.
  intros Hb Hne.
  assert (Zod.safeParse contatoSchema (body req) =
          Zod.SafeParseError (Zod.parse_shape contatoSchema props)) as Hp.
  { rewrite Hb. unfold Zod.safeParse.
    by destruct (Zod.parse_shape contatoSchema props). }
  unfold handle. rewrite post_root_invalid by (by rewrite Hp). by rewrite Hp.
Qed.

(** Completing the append at the head of the queue. *)
Lemma complete_append_head w file data cb rest outcome :
  pending_appends w = (file, data, cb) :: rest ->
  complete_append outcome w =
  match outcome with
  | None =>
      run_callback cb None
        (set_files
           (<[file := default [] (files w !! file) ++ data]> (files w))
           (set_pending_appends rest w))
  | Some e => run_callback cb (Some e) (set_pending_appends rest w)
  end.
Proof. intros Hq. unfold complete_append. by rewrite Hq. Qed.

End Handlers.

(** ** The properties of the specification *)
Section Properties.
Context `{lib : Zod.Library}.

(** C1, for a store that accepts the call.  For every submission body whose nome, email and
    telefone satisfy the validation schema, and while the store accepts the
    call, [POST /] answers 200 with the fixed success text, and the store
    afterwards holds exactly one more contact record, made of exactly those
    three values; nothing else of the world changes. *)
Theorem post_valid_persists_contact req w n e t :
  valid_submission (body req) n e t ->
  db_fault w = None ->
  handle post_root req w =
  (inr tt,
   answered
     (set_contatos
        (contatos w ++
           [{| nome := VString n; telefone := VString t; email := VString e |}]) w)
     200 msg_salvo).
Proof.
  intros Hvalid Hdb.
  assert (Zod.success (Zod.safeParse contatoSchema (body req)) = true) as Hs.
  { apply safeParse_success. by exists n, e, t. }
  destruct Hvalid as (props & Hb & Hn & _ & He & _ & Ht & _).
  unfold handle. rewrite (post_root_valid _ _ _ Hb Hs).
  apply get_own_string in Hn, He, Ht. rewrite Hn, He, Ht.
  unfold Contato_create, mbind, M_bind. simpl. by rewrite Hdb.
Qed.

(** C2.  A string telefone is accepted by the schema exactly when it has
    the shape [(##) #####-####] with nothing before or after; a submission
    with any other string telefone is answered 400 with a text that includes
    the phone-format message. *)
Theorem telefone_exact_shape req w props s :
  body req = VObject props ->
  props !! key_telefone = Some (VString s) ->
  (Zod.parse_string schema_telefone [key_telefone] (VString s) = []
     <-> telefone_shape s) /\
  (~ telefone_shape s ->
   exists text,
     handle post_root req w = (inr tt, answered w 400 text) /\
     includes text msg_telefone_valido).
Proof.
  intros Hb Ht. split.
  - rewrite parse_telefone_ok. split; [by intros (? & [= <-] & ?) | by exists s].
  - intros Hno. apply get_own_string in Ht.
    assert (Zod.safeParse contatoSchema (body req) =
            Zod.SafeParseError (Zod.parse_shape contatoSchema props)
            /\ In msg_telefone_valido
                 (messages (Zod.parse_shape contatoSchema props))) as [Hp Hin].
    { rewrite Hb. unfold Zod.safeParse. rewrite parse_shape_contato, Ht.
      rewrite parse_telefone_string.
      apply telefone_test_not_shape in Hno. rewrite Hno.
      split.
      - by destruct (_ ++ _ ++ _) eqn:E; [apply app_eq_nil in E as [_ [_ ?]%app_eq_nil] |].
      - unfold messages. rewrite !map_app. rewrite !in_app_iff. right. right. by left. }
    eexists. split.
    + unfold handle. rewrite post_root_invalid; [reflexivity | by rewrite Hp].
    + rewrite Hp. by apply includes_join.
Qed.

(** C4.  For every submission body that fails validation, [POST /] answers
    400 and creates no contact record: the stored contacts, and the rest of
    the world, are as they were before the request. *)
Theorem post_invalid_persists_nothing req w :
  Zod.success (Zod.safeParse contatoSchema (body req)) = false ->
  exists text,
    handle post_root req w = (inr tt, answered w 400 text) /\
    contatos (world (handle post_root req w).2) = contatos w.
Proof.
  intros H. eexists. unfold handle. rewrite post_root_invalid; [| done].
  split; reflexivity.
Qed.

(** C5.  For every submission body whose nome is a string shorter than 3,
    [POST /] answers 400 with a text that includes the minimum-length
    message; a string nome of length 3 or more satisfies the name rule. *)
Theorem nome_minimum_length req w props s :
  body req = VObject props ->
  props !! key_nome = Some (VString s) ->
  ((length s < 3)%nat ->
   exists text,
     handle post_root req w = (inr tt, answered w 400 text) /\
     includes text msg_nome_min) /\
  ((3 <= length s)%nat ->
   Zod.parse_string schema_nome [key_nome] (VString s) = []).
Proof.
  intros Hb Hn. split.
  - intros Hshort. apply get_own_string in Hn.
    assert (Zod.safeParse contatoSchema (body req) =
            Zod.SafeParseError (Zod.parse_shape contatoSchema props)
            /\ In msg_nome_min
                 (messages (Zod.parse_shape contatoSchema props))) as [Hp Hin].
    { rewrite Hb. unfold Zod.safeParse. rewrite parse_shape_contato, Hn.
      rewrite parse_nome_string.
      apply Nat.ltb_lt in Hshort. rewrite Hshort. split; [done | by left]. }
    eexists. split.
    + unfold handle. rewrite post_root_invalid; [reflexivity | by rewrite Hp].
    + rewrite Hp. by apply includes_join.
  - intros Hlong. apply parse_nome_ok. by exists s.
Qed.

(** C8.  For every submission body that passes validation, if the creation
    of the contact fails, [POST /] catches nothing and sends no response of
    its own: the error leaves the handler, and world and response object are
    as they were. *)
Theorem post_store_failure_propagates req w err :
  Zod.success (Zod.safeParse contatoSchema (body req)) = true ->
  db_fault w = Some err ->
  handle post_root req w = (inl err, {| world := w; res := fresh_res |}).
Proof.
  intros Hs Hdb. destruct (success_is_object _ Hs) as [props Hb].
  unfold handle. rewrite (post_root_valid _ _ _ Hb Hs).
  unfold Contato_create, mbind, M_bind. simpl. by rewrite Hdb.
Qed.

(** C3, for bodies that are objects.  For every submission body that is an
    object and violates more than one validation rule, [POST /] sends a
    single 400 response whose text is all the corresponding messages, those
    of nome first, then those of email, then those of telefone: the first
    message as it is and every later one after ["; "]. *)
Theorem post_object_joins_messages req w props nome_msgs email_msgs telefone_msgs :
  body req = VObject props ->
  nome_rule (default VUndefined (props !! key_nome)) nome_msgs ->
  email_rule (default VUndefined (props !! key_email)) email_msgs ->
  telefone_rule (default VUndefined (props !! key_telefone)) telefone_msgs ->
  (1 < length (nome_msgs ++ email_msgs ++ telefone_msgs))%nat ->
  exists first rest,
    nome_msgs ++ email_msgs ++ telefone_msgs = first :: rest /\
    handle post_root req w =
    (inr tt,
     answered w 400 (first ++ concat (List.map (fun m => lit "; " ++ m) rest))).
Proof.
  intros Hb Hn He Ht Hmany.
  destruct (nome_msgs ++ email_msgs ++ telefone_msgs) as [|first rest] eqn:Hall;
    [simpl in Hmany; lia |].
  exists first, rest. split; [done |].
  assert (messages (Zod.parse_shape contatoSchema props) = first :: rest) as Hm.
  { rewrite (messages_by_rules _ _ _ _ Hn He Ht). exact Hall. }
  rewrite (post_object_invalid _ _ _ Hb).
  - by rewrite Hm, join_explicit.
  - intros Hnil. by rewrite Hnil in Hm.
Qed.


(** C7, for bodies that are objects.  For every submission body that is an
    object in which telefone is absent, validation fails and the message for
    the phone, the last of the response, is the library's default wording
    for a missing string, because the phone rule declares no message of its
    own while the rules of nome and email do. *)
Theorem telefone_absent_default_message req w props :
  body req = VObject props ->
  props !! key_telefone = None ->
  Zod.success (Zod.safeParse contatoSchema (body req)) = false /\
  (exists nome_msgs email_msgs first rest,
     nome_rule (default VUndefined (props !! key_nome)) nome_msgs /\
     email_rule (default VUndefined (props !! key_email)) email_msgs /\
     nome_msgs ++ email_msgs
       ++ [Zod.defaultErrorMap Zod.t_string Zod.t_undefined] = first :: rest /\
     handle post_root req w =
     (inr tt,
      answered w 400
        (first ++ concat (List.map (fun m => lit "; " ++ m) rest)))) /\
  (exists before,
     handle post_root req w =
     (inr tt,
      answered w 400
        (before ++ Zod.defaultErrorMap Zod.t_string Zod.t_undefined))) /\
  Zod.create_message schema_telefone = None /\
  messages (Zod.parse_string schema_nome [key_nome] VUndefined)
    = [msg_nome_obrigatorio] /\
  messages (Zod.parse_string schema_email [key_email] VUndefined)
    = [msg_email_obrigatorio].
Proof.
  intros Hb Ht.
  set (D := Zod.defaultErrorMap Zod.t_string Zod.t_undefined).
  set (nome_msgs :=
         messages (Zod.parse_string schema_nome [key_nome]
                     (default VUndefined (props !! key_nome)))).
  set (email_msgs :=
         messages (Zod.parse_string schema_email [key_email]
                     (default VUndefined (props !! key_email)))).
  assert (messages (Zod.parse_shape contatoSchema props)
          = nome_msgs ++ email_msgs ++ [D]) as Hm.
  { apply messages_by_rules.
    - apply nome_rule_parse.
    - apply email_rule_parse.
    - by rewrite Ht. }
  assert (handle post_root req w =
          (inr tt,
           answered w 400
             (join (lit "; ") (nome_msgs ++ email_msgs ++ [D])))) as Hrun.
  { rewrite (post_object_invalid _ _ _ Hb); [by rewrite Hm |].
    intros Hnil. rewrite Hnil in Hm. destruct nome_msgs, email_msgs; discriminate. }
  split.
  { rewrite Hb. apply not_true_iff_false. intros Hs.
    apply safeParse_object_success in Hs. rewrite Hs in Hm.
    destruct nome_msgs, email_msgs; discriminate. }
  split.
  { destruct (nome_msgs ++ email_msgs ++ [D]) as [|first rest] eqn:Hall.
    { destruct nome_msgs, email_msgs; discriminate. }
    exists nome_msgs, email_msgs, first, rest.
    split; [apply nome_rule_parse |]. split; [apply email_rule_parse |].
    split; [done |]. by rewrite Hrun, join_explicit. }
  split.
  { rewrite Hrun, app_assoc, join_snoc. by eexists. }
  done.
Qed.

(** C9.  For every request, whatever its route and outcome and whatever
    appends are still pending, the access logger issues exactly one append
    to [access.log], of the line [<timestamp> - <method> <path and query>]
    and a line feed, and the request is handled at once and as it would be
    without the logger.  When the runtime completes that append, the file
    ends with exactly that line; when the append fails, the failure is
    reported on the console's error stream, file and contacts stay as they
    were, and the request is not touched. *)
Theorem access_logger_one_line req st :
  let file := path_join (dirname (world st)) (lit "access.log") in
  let line :=
    now_iso (world st) ++ lit " - " ++ method req ++ lit " "
      ++ originalUrl req ++ [10] in
  let handled := dispatch req st in
  let after := app req st in
  (after.1 = handled.1 /\
   res after.2 = res handled.2 /\
   contatos (world after.2) = contatos (world handled.2) /\
   console (world after.2) = console (world handled.2) /\
   files (world after.2) = files (world st)) /\
  pending_appends (world after.2)
    = pending_appends (world st) ++ [(file, line, log_written)] /\
  (forall w' rest,
     pending_appends w' = (file, line, log_written) :: rest ->
     files (complete_append None w')
       = <[file := default [] (files w' !! file) ++ line]> (files w') /\
     console (complete_append None w') = console w' /\
     contatos (complete_append None w') = contatos w' /\
     pending_appends (complete_append None w') = rest) /\
  (forall w' rest err,
     pending_appends w' = (file, line, log_written) :: rest ->
     files (complete_append (Some err) w') = files w' /\
     console (complete_append (Some err) w')
       = console w'
           ++ [console_error_entry (lit "Erro ao escrever no arquivo de log:") err] /\
     contatos (complete_append (Some err) w') = contatos w' /\
     pending_appends (complete_append (Some err) w') = rest).
Proof.
  intros file line handled after.
  assert (after =
          (handled.1,
           on_world
             (set_pending_appends
                (pending_appends (world st) ++ [(file, line, log_written)]))
             handled.2)) as Hafter by apply app_split.
  split; [| split; [| split]].
  - rewrite Hafter. repeat split. simpl. apply dispatch_files.
  - by rewrite Hafter.
  - intros w' rest Hq. by rewrite (complete_append_head _ _ _ _ _ _ Hq).
  - intros w' rest err Hq. by rewrite (complete_append_head _ _ _ _ _ _ Hq).
Qed.

(** C10, between objects.  For any two submission bodies that are objects and
    agree on nome, email and telefone, [POST /] has the same outcome: the
    same result, the same response and the same world afterwards, whatever
    other fields the bodies carry. *)
Theorem post_ignores_other_fields req1 req2 w p1 p2 :
  body req1 = VObject p1 ->
  body req2 = VObject p2 ->
  p1 !! key_nome = p2 !! key_nome ->
  p1 !! key_email = p2 !! key_email ->
  p1 !! key_telefone = p2 !! key_telefone ->
  handle post_root req1 w = handle post_root req2 w.
Proof.
  intros Hb1 Hb2 Hn He Ht.
  assert (Zod.parse_shape contatoSchema p1 = Zod.parse_shape contatoSchema p2) as Hsame.
  { rewrite !parse_shape_contato. unfold get_own. by rewrite Hn, He, Ht. }
  unfold handle.
  destruct (Zod.success (Zod.safeParse contatoSchema (body req1))) eqn:H1.
  - assert (Zod.success (Zod.safeParse contatoSchema (body req2)) = true) as H2.
    { rewrite Hb2. apply safeParse_object_success. rewrite <- Hsame.
      apply safeParse_object_success. by rewrite <- Hb1. }
    rewrite (post_root_valid _ _ _ Hb1 H1), (post_root_valid _ _ _ Hb2 H2).
    unfold get_own. by rewrite Hn, He, Ht.
  - assert (Zod.success (Zod.safeParse contatoSchema (body req2)) = false) as H2.
    { apply not_true_is_false. intros H2. rewrite Hb2 in H2.
      apply safeParse_object_success in H2. rewrite <- Hsame in H2.
      apply safeParse_object_success in H2. rewrite <- Hb1 in H2. congruence. }
    rewrite !post_root_invalid by done.
    by rewrite Hb1, Hb2, !safeParse_object_issues, Hsame.
Qed.

End Properties.

(** ** What the handlers keep and what they never do *)
Section Behaviour.
Context `{lib : Zod.Library}.

(** A handler changes nothing of the world but the contacts and the
    console. *)
Lemma dispatch_frame req st :
  db_fault (world (dispatch req st).2) = db_fault (world st) /\
  files (world (dispatch req st).2) = files (world st) /\
  pending_appends (world (dispatch req st).2) = pending_appends (world st) /\
  now_iso (world (dispatch req st).2) = now_iso (world st) /\
  dirname (world (dispatch req st).2) = dirname (world st).
Proof.
  unfold dispatch. destruct (matched req); try done.
  - destruct (Zod.success (Zod.safeParse contatoSchema (body req))) eqn:H.
    + destruct (success_is_object _ H) as [props Hb].
      rewrite (post_root_valid _ _ _ Hb H).
      unfold Contato_create, mbind, M_bind.
      destruct (db_fault (world st)) eqn:Hdb; simpl; by rewrite ?Hdb.
    + by rewrite post_root_invalid.
  - rewrite get_contatos_run.
    destruct (db_fault (world st)) eqn:Hdb; simpl; by rewrite ?Hdb.
Qed.

(** The contacts after a handler ran: one more when the submission is
    valid and the store takes it, the same otherwise. *)
Lemma dispatch_contatos req st :
  contatos (world (dispatch req st).2) =
  contatos (world st) ++ (if creates req (world st) then [posted req] else []).
Proof.
  unfold dispatch, creates. destruct (matched req); simpl;
    try by rewrite app_nil_r.
  - destruct (Zod.success (Zod.safeParse contatoSchema (body req))) eqn:H.
    + destruct (success_is_object _ H) as [props Hb].
      rewrite (post_root_valid _ _ _ Hb H).
      unfold Contato_create, mbind, M_bind, posted. rewrite Hb. simpl.
      destruct (db_fault (world st)) eqn:Hdb; simpl.
      * by rewrite app_nil_r.
      * done.
    + rewrite post_root_invalid by done. simpl. by rewrite app_nil_r.
  - rewrite get_contatos_run.
    destruct (db_fault (world st)); simpl; by rewrite app_nil_r.
Qed.

Lemma creates_valid req w :
  creates req w = true -> valid_record (posted req).
Proof.
  unfold creates. destruct (matched req); try done.
  intros [Hs _]%andb_true_iff.
  apply safeParse_success in Hs
    as (n & e & t & props & Hb & Hn & Hlen & He & Hmail & Ht & Hshape).
  apply get_own_string in Hn, He, Ht.
  exists n, e, t. unfold posted. rewrite Hb. simpl. by rewrite Hn, He, Ht.
Qed.

(** X1.  No request ever removes or rewrites a stored contact: after any
    request, on any route, the stored contacts are the ones before, followed
    by the submitted record when the request is a valid submission and the
    store is up, and by nothing otherwise. *)
Theorem store_only_grows req st :
  contatos (world (app req st).2) =
  contatos (world st) ++ (if creates req (world st) then [posted req] else []).
Proof. rewrite app_split. simpl. apply dispatch_contatos. Qed.

(** X2.  If every stored contact satisfies the schema, then so does every
    stored contact after any request: nothing reaches the store without
    having passed validation. *)
Theorem stored_records_stay_valid req st :
  Forall valid_record (contatos (world st)) ->
  Forall valid_record (contatos (world (app req st).2)).
Proof.
  intros Hall. rewrite app_split. simpl. rewrite dispatch_contatos.
  apply Forall_app. split; [done |].
  destruct (creates req (world st)) eqn:Hc; [| constructor].
  constructor; [by eapply creates_valid | constructor].
Qed.

(** X3.  Every request that reaches a handler gets exactly one reply, but
    for one case: a valid submission while the store is failing ends in the
    store's error with no reply at all and the world as it was. *)
Theorem one_reply_unless_store_fails req w :
  match handle dispatch req w with
  | (inr _, st') => exists r, sent (res st') = [r]
  | (inl err, st') =>
      sent (res st') = [] /\ world st' = w /\
      matched req = POST_root /\
      Zod.success (Zod.safeParse contatoSchema (body req)) = true /\
      db_fault w = Some err
  end.
Proof.
  unfold handle, dispatch. destruct (matched req) eqn:Hroute;
    try (simpl; by eexists).
  - destruct (Zod.success (Zod.safeParse contatoSchema (body req))) eqn:H.
    + destruct (success_is_object _ H) as [props Hb].
      rewrite (post_root_valid _ _ _ Hb H).
      unfold Contato_create, mbind, M_bind. simpl.
      destruct (db_fault w) eqn:Hdb; simpl; [done | by eexists].
    + rewrite post_root_invalid by done. simpl. by eexists.
  - rewrite get_contatos_run. simpl. destruct (db_fault w); simpl; by eexists.
Qed.

Lemma app_pending req st :
  pending_appends (world (app req st).2) =
  pending_appends (world st) ++
    [(path_join (dirname (world st)) (lit "access.log"),
      log_line (now_iso (world st)) req, log_written)].
Proof. by rewrite app_split. Qed.

(** Serving a request: the handler's world, with one more pending append. *)
Lemma serve_split w req :
  serve w req =
  set_pending_appends
    (pending_appends w ++
       [(path_join (dirname w) (lit "access.log"), log_line (now_iso w) req,
         log_written)])
    (world (dispatch req {| world := w; res := fresh_res |}).2).
Proof. unfold serve, handle. by rewrite app_split. Qed.

Lemma serve_db_fault w req : db_fault (serve w req) = db_fault w.
Proof.
  rewrite serve_split. simpl.
  by destruct (dispatch_frame req {| world := w; res := fresh_res |}) as (-> & _).
Qed.

Lemma serve_contatos w req :
  contatos (serve w req) =
  contatos w ++ (if creates req w then [posted req] else []).
Proof. rewrite serve_split. simpl. by rewrite dispatch_contatos. Qed.

Lemma creates_db_fault req w w' :
  db_fault w' = db_fault w -> creates req w' = creates req w.
Proof. unfold creates. by intros ->. Qed.

(** The contacts after a run of requests: those before, then the records of
    the submissions that were valid while the store was up, in order. *)
Lemma serve_all_contatos reqs w :
  contatos (serve_all reqs w) =
  contatos w ++ List.map posted (List.filter (fun r => creates r w) reqs)
  /\ db_fault (serve_all reqs w) = db_fault w.
Proof.
  revert w. induction reqs as [|r reqs IH]; intros w; simpl.
  - by rewrite app_nil_r.
  - destruct (IH (serve w r)) as [Hc Hdb]. unfold serve_all in *.
    rewrite Hc, Hdb, serve_db_fault, serve_contatos. split; [| done].
    rewrite (List.filter_ext (fun r0 => creates r0 (serve w r))
               (fun r0 => creates r0 w))
      by (intros r0; apply creates_db_fault, serve_db_fault).
    destruct (creates r w); simpl; by rewrite <- app_assoc.
Qed.

(** X4.  While the store is up, [GET /contatos] after any run of requests
    renders a list that holds, up to order, the contacts stored before the
    run and one record for each valid submission of the run, whatever other
    requests came in between; equal submissions are listed once each. *)
Theorem listing_after_requests reqs w r :
  db_fault w = None ->
  exists listed,
    handle get_contatos r (serve_all reqs w) =
    (inr tt,
     {| world := serve_all reqs w;
        res := {| statusCode := 200;
                  sent := [Rendered 200 (lit "contatos")
                             [(lit "contatos", listed)]] |} |})
    /\
    listed
      ≡ₚ contatos w ++ List.map posted (List.filter (fun r => creates r w) reqs).
Proof.
  intros Hdb. destruct (serve_all_contatos reqs w) as [Hc Hf].
  exists (contatos (serve_all reqs w)). split.
  - unfold handle. rewrite get_contatos_run. simpl. by rewrite Hf, Hdb.
  - by rewrite Hc.
Qed.



(** X6.  When neither the clock reading nor the method nor the URL holds a
    line feed, the text queued for [access.log] is one line: it ends with a
    line feed and holds no other. *)
Theorem log_line_is_one_line req st :
  10 ∉ now_iso (world st) ->
  10 ∉ method req ->
  10 ∉ originalUrl req ->
  exists text,
    (10 ∉ text) /\
    pending_appends (world (app req st).2) =
    pending_appends (world st) ++
      [(path_join (dirname (world st)) (lit "access.log"), text ++ [10],
        log_written)].
Proof.
  intros Hnow Hm Hu.
  exists (now_iso (world st) ++ lit " - " ++ method req ++ lit " "
            ++ originalUrl req).
  split.
  - rewrite !not_elem_of_app. repeat split; try done.
    + intros H. apply list_elem_of_In in H. vm_compute in H.
      repeat (destruct H as [H | H]; [discriminate H |]). destruct H.
    + intros H. apply list_elem_of_In in H. vm_compute in H.
      repeat (destruct H as [H | H]; [discriminate H |]). destruct H.
  - rewrite app_pending. unfold log_line. by rewrite <- !app_assoc.
Qed.

Lemma telefone_test_length s :
  RegExp.test telefone_regex s = true -> length s = 15%nat.
Proof.
  intros (area & prefix & line & L2 & _ & L5 & _ & L7 & _ & ->)%telefone_test_shape.
  rewrite !length_app, L2, L5, L7. reflexivity.
Qed.

(** X7.  A phone the schema accepts is 15 code units long and made only of
    the digits 0 to 9, the two parentheses, the space and the hyphen: no
    letter, no control character and no digit of another script passes. *)
Theorem telefone_accepted_alphabet s :
  RegExp.test telefone_regex s = true ->
  length s = 15%nat /\ Forall telefone_char s.
Proof.
  intros H. split; [by apply telefone_test_length |].
  apply telefone_test_shape in H
    as (area & prefix & line & _ & D2 & _ & D5 & _ & D7 & ->).
  assert (forall l, Forall digit l -> Forall telefone_char l) as Hd.
  { intros l Hl. eapply Forall_impl; [exact Hl |]. intros c Hc. by left. }
  rewrite !Forall_app. repeat split; auto.
  - constructor; [| constructor]. right. by left.
  - constructor; [| constructor; [| constructor]].
    + right. right. by left.
    + right. right. right. by left.
  - constructor; [| constructor]. right. right. right. by right.
Qed.

(** X8.  The pattern is anchored at both ends: an accepted phone with
    anything put before or after it is no longer accepted. *)
Theorem telefone_no_padding before s after :
  RegExp.test telefone_regex s = true ->
  RegExp.test telefone_regex (before ++ s ++ after) = true ->
  before = [] /\ after = [].
Proof.
  intros Hs Hpadded.
  apply telefone_test_length in Hs, Hpadded.
  rewrite !length_app in Hpadded.
  split; apply length_zero_iff_nil; lia.
Qed.

Lemma field_issue_bound p v :
  (length (Zod.parse_string schema_nome p v) <= 1)%nat /\
  (length (Zod.parse_string schema_email p v) <= 1)%nat /\
  (length (Zod.parse_string schema_telefone p v) <= 1)%nat.
Proof.
  destruct v; try (by repeat split).
  rewrite parse_nome_string, parse_email_string, parse_telefone_string.
  destruct (length s <? 3)%nat, (Zod.emailRegex_test s),
    (RegExp.test telefone_regex s); simpl; lia.
Qed.

(** X9.  Whatever the body, validation reports at most three issues, at
    most one per field, and it fails exactly when it reports at least
    one. *)
Theorem issues_at_most_three b :
  (length (Zod.error_issues (Zod.safeParse contatoSchema b)) <= 3)%nat /\
  (Zod.success (Zod.safeParse contatoSchema b) = false <->
   (1 <= length (Zod.error_issues (Zod.safeParse contatoSchema b)))%nat).
Proof.
  destruct b as [| | | | | |props]; try (simpl; split; [lia | split; [lia | done]]).
  rewrite safeParse_object_issues. split.
  - rewrite parse_shape_contato, !length_app.
    destruct (field_issue_bound [key_nome] (get_own props key_nome)) as (? & _ & _).
    destruct (field_issue_bound [key_email] (get_own props key_email)) as (_ & ? & _).
    destruct (field_issue_bound [key_telefone] (get_own props key_telefone))
      as (_ & _ & ?).
    lia.
  - unfold Zod.safeParse.
    destruct (Zod.parse_shape contatoSchema props); simpl; split; try done; lia.
Qed.

(** X10.  A body that is not an object (an array, a string, a number,
    nothing at all) is answered 400 with the library's one message for an
    object expected and that type received; no field is looked at and
    nothing is stored. *)
Theorem non_object_body_rejected req w :
  (forall props, body req <> VObject props) ->
  handle post_root req w =
  (inr tt,
   answered w 400 (Zod.defaultErrorMap Zod.t_object (Zod.getParsedType (body req)))).
Proof.
  intros Hno. unfold handle.
  assert (Zod.safeParse contatoSchema (body req) =
          Zod.SafeParseError
            [{| Zod.code := Zod.invalid_type; Zod.path := [];
                Zod.message :=
                  Zod.defaultErrorMap Zod.t_object (Zod.getParsedType (body req)) |}])
    as Hp.
  { destruct (body req); try done. by destruct (Hno props). }
  rewrite post_root_invalid by (by rewrite Hp). by rewrite Hp.
Qed.

(** X11.  For an object body, an email that is a string the library's
    pattern refuses is answered 400 with the e-mail validity message in the
    text, and an email that is missing or not a string is answered 400 with
    the e-mail required message in the text. *)
Theorem email_rule_messages req w props :
  body req = VObject props ->
  (forall s, get_own props key_email = VString s ->
             Zod.emailRegex_test s = false ->
   exists text,
     handle post_root req w = (inr tt, answered w 400 text) /\
     includes text msg_email_valido) /\
  ((forall s, get_own props key_email <> VString s) ->
   exists text,
     handle post_root req w = (inr tt, answered w 400 text) /\
     includes text msg_email_obrigatorio).
Proof.
  intros Hb.
  assert (forall m,
            In m (messages (Zod.parse_string schema_email [key_email]
                              (get_own props key_email))) ->
            exists text,
              handle post_root req w = (inr tt, answered w 400 text) /\
              includes text m) as Hin.
  { intros m Hm.
    assert (In m (messages (Zod.parse_shape contatoSchema props))) as Hall.
    { rewrite parse_shape_contato. unfold messages in *.
      rewrite !map_app, !in_app_iff. right. by left. }
    eexists. split.
    - apply (post_object_invalid _ _ _ Hb).
      intros Hnil. rewrite Hnil in Hall. destruct Hall.
    - by apply includes_join. }
  split.
  - intros s Hs Hbad. apply Hin. rewrite Hs, parse_email_string, Hbad. by left.
  - intros Hno. apply Hin.
    destruct (get_own props key_email); try (by left). by destruct (Hno s).
Qed.

(** X12.  For an object body, a nome that is missing or not a string is
    answered 400 with a text that begins with the name required message:
    a wrong type and an absent field get the same wording, ahead of every
    other message. *)
Theorem nome_not_text_comes_first req w props :
  body req = VObject props ->
  (forall s, get_own props key_nome <> VString s) ->
  exists rest,
    handle post_root req w =
    (inr tt, answered w 400 (msg_nome_obrigatorio ++ rest)).
Proof.
  intros Hb Hno.
  assert (exists others,
            messages (Zod.parse_shape contatoSchema props)
            = msg_nome_obrigatorio :: others) as [others Hm].
  { rewrite parse_shape_contato. unfold messages. rewrite map_app.
    eexists. destruct (get_own props key_nome); try reflexivity.
    by destruct (Hno s). }
  eexists. rewrite (post_object_invalid _ _ _ Hb).
  - rewrite Hm, join_cons. reflexivity.
  - intros Hnil. by rewrite Hnil in Hm.
Qed.

(** X13.  For an object body, a telefone that is not a string, whatever it
    is instead, is answered 400 with a text that ends with the library's
    message for a string expected and that type received; the phone-format
    message is kept for strings. *)
Theorem telefone_not_text_default_wording req w props :
  body req = VObject props ->
  (forall s, get_own props key_telefone <> VString s) ->
  exists before,
    handle post_root req w =
    (inr tt,
     answered w 400
       (before ++ Zod.defaultErrorMap Zod.t_string
                    (Zod.getParsedType (get_own props key_telefone)))).
Proof.
  intros Hb Hno.
  assert (exists earlier,
            messages (Zod.parse_shape contatoSchema props)
            = earlier ++ [Zod.defaultErrorMap Zod.t_string
                            (Zod.getParsedType (get_own props key_telefone))])
    as [earlier Hm].
  { rewrite parse_shape_contato. unfold messages. rewrite !map_app, app_assoc.
    eexists. f_equal. destruct (get_own props key_telefone); try reflexivity.
    by destruct (Hno s). }
  eexists. rewrite (post_object_invalid _ _ _ Hb).
  - rewrite Hm, join_snoc. reflexivity.
  - intros Hnil. rewrite Hnil in Hm. by destruct earlier.
Qed.

(** X14.  Every object body that fails validation, be it by one rule or by
    several, is answered 400 with the messages of nome, then of email, then
    of telefone: the first message as it is and every later one after
    ["; "]; with a single violated rule the text is that rule's message and
    nothing else. *)
Theorem post_invalid_text req w props :
  body req = VObject props ->
  Zod.success (Zod.safeParse contatoSchema (body req)) = false ->
  exists nome_msgs email_msgs telefone_msgs first rest,
    nome_rule (default VUndefined (props !! key_nome)) nome_msgs /\
    email_rule (default VUndefined (props !! key_email)) email_msgs /\
    telefone_rule (default VUndefined (props !! key_telefone)) telefone_msgs /\
    nome_msgs ++ email_msgs ++ telefone_msgs = first :: rest /\
    handle post_root req w =
    (inr tt,
     answered w 400 (first ++ concat (List.map (fun m => lit "; " ++ m) rest))) /\
    (rest = [] -> handle post_root req w = (inr tt, answered w 400 first)).
Proof.
  intros Hb Hfail.
  set (nome_msgs :=
         messages (Zod.parse_string schema_nome [key_nome]
                     (default VUndefined (props !! key_nome)))).
  set (email_msgs :=
         messages (Zod.parse_string schema_email [key_email]
                     (default VUndefined (props !! key_email)))).
  set (telefone_msgs :=
         messages (Zod.parse_string schema_telefone [key_telefone]
                     (default VUndefined (props !! key_telefone)))).
  assert (messages (Zod.parse_shape contatoSchema props)
          = nome_msgs ++ email_msgs ++ telefone_msgs) as Hm.
  { apply messages_by_rules;
      [apply nome_rule_parse | apply email_rule_parse | apply telefone_rule_parse]. }
  assert (Zod.parse_shape contatoSchema props <> []) as Hne.
  { intros Hnil. rewrite Hb in Hfail. apply not_true_iff_false in Hfail.
    apply Hfail. by apply safeParse_object_success. }
  destruct (nome_msgs ++ email_msgs ++ telefone_msgs) as [|first rest] eqn:Hall.
  { destruct (Zod.parse_shape contatoSchema props); [done | discriminate Hm]. }
  exists nome_msgs, email_msgs, telefone_msgs, first, rest.
  split; [apply nome_rule_parse |].
  split; [apply email_rule_parse |].
  split; [apply telefone_rule_parse |].
  split; [exact Hall |].
  rewrite (post_object_invalid _ _ _ Hb Hne), Hm, join_explicit.
  split; [done |]. intros ->. simpl. by rewrite app_nil_r.
Qed.

(** The data [safeParse] returns: nothing under a key outside the shape,
    the body's value under each key of the shape. *)
Lemma strip_lookup_out (shape : Zod.ZodObject) (props : gmap (list N) value) k :
  k ∉ shape.*1 -> Zod.strip shape props !! k = None.
Proof.
  unfold Zod.strip. induction shape as [|[key sch] rest IH]; simpl.
  - intros _. apply lookup_empty.
  - intros [Hne Hout]%not_elem_of_cons.
    destruct (props !! key); simpl; [rewrite lookup_insert_ne by done |];
      by apply IH.
Qed.

Lemma strip_lookup_in (shape : Zod.ZodObject) (props : gmap (list N) value) k :
  k ∈ shape.*1 -> Zod.strip shape props !! k = props !! k.
Proof.
  induction shape as [|[key sch] rest IH].
  - by intros ?%elem_of_nil.
  - intros Hin.
    assert (Zod.strip ((key, sch) :: rest) props =
            match props !! key with
            | Some v => <[key := v]> (Zod.strip rest props)
            | None => Zod.strip rest props
            end) as ->.
    { unfold Zod.strip. simpl. by destruct (props !! key). }
    destruct (decide (k = key)) as [->|Hne].
    + destruct (props !! key) as [v|] eqn:Hkey.
      * by rewrite lookup_insert_eq.
      * destruct (decide (key ∈ rest.*1)) as [Hrest|Hrest].
        -- by apply IH.
        -- by apply strip_lookup_out.
    + apply elem_of_cons in Hin as [? | Hin]; [done |].
      destruct (props !! key); [rewrite lookup_insert_ne by done |];
        by apply IH.
Qed.

(** X15.  On success [safeParse] returns an object that holds the body's
    nome, email and telefone and no other key, so the record the handler
    builds from the raw body is the one the parsed data would give: no
    unknown field of the body can reach the store either way. *)
Theorem parsed_data_matches_body b :
  Zod.success (Zod.safeParse contatoSchema b) = true ->
  exists props data,
    b = VObject props /\
    Zod.safeParse contatoSchema b = Zod.SafeParseSuccess (VObject data) /\
    data !! key_nome = props !! key_nome /\
    data !! key_email = props !! key_email /\
    data !! key_telefone = props !! key_telefone /\
    (forall k, k <> key_nome -> k <> key_email -> k <> key_telefone ->
               data !! k = None).
Proof.
  intros Hs. destruct (success_is_object _ Hs) as [props ->].
  exists props, (Zod.strip contatoSchema props).
  split; [done |]. split.
  { apply safeParse_object_success in Hs. unfold Zod.safeParse. by rewrite Hs. }
  assert (forall k, k ∈ contatoSchema.*1 <->
                    k = key_nome \/ k = key_email \/ k = key_telefone) as Hkeys.
  { intros k. unfold contatoSchema. simpl.
    rewrite !elem_of_cons, elem_of_nil. tauto. }
  repeat split.
  - apply strip_lookup_in, Hkeys. by left.
  - apply strip_lookup_in, Hkeys. right. by left.
  - apply strip_lookup_in, Hkeys. right. by right.
  - intros k Hn He Ht. apply strip_lookup_out. rewrite Hkeys. tauto.
Qed.

Lemma utf16_length cps :
  length (List.flat_map Utf.utf16_units cps) =
  (length cps + length (List.filter astral cps))%nat.
Proof.
  induction cps as [|c cps IH]; [done |].
  cbn [List.flat_map List.filter]. rewrite length_app, IH.
  unfold Utf.utf16_units, astral. rewrite N.ltb_antisym.
  destruct (65536 <=? c); simpl; lia.
Qed.

(** X16.  The minimum of three counts UTF-16 code units, not characters: a
    nome given by its code points passes the length rule exactly when the
    number of code points plus the number of those outside the basic plane
    is at least three, so two such characters are enough. *)
Theorem nome_length_counts_code_units p cps :
  Zod.parse_string schema_nome p (VString (List.flat_map Utf.utf16_units cps)) = []
  <->
  (3 <= length cps + length (List.filter astral cps))%nat.
Proof.
  rewrite parse_nome_ok, <- utf16_length. split.
  - by intros (s & [= <-] & Hlen).
  - intros Hlen. by eexists.
Qed.

End Behaviour.

(** ** The properties at concrete requests *)

#[local] Existing Instance Sample.library.

Example lit_accents : lit "válido" = [118; 225; 108; 105; 100; 111].
Proof. vm_compute. reflexivity. Qed.

Example join_three :
  join (lit "; ") [lit "a"; lit "b"; lit "c"] = lit "a; b; c".
Proof. vm_compute. reflexivity. Qed.

Example telefone_accepted :
  RegExp.test telefone_regex (lit "(11) 91234-5678") = true.
Proof. vm_compute. reflexivity. Qed.

Example telefone_trailing_line_feed :
  RegExp.test telefone_regex (lit "(11) 91234-5678" ++ [10]) = false.
Proof. vm_compute. reflexivity. Qed.

Example telefone_letters :
  RegExp.test telefone_regex (lit "(1a) 91234-5678") = false.
Proof. vm_compute. reflexivity. Qed.

Example post_empty_object :
  handle post_root (Sample.post (Sample.object [])) Sample.world0 =
  (inr tt,
   answered Sample.world0 400
     (lit "Campo nome é obrigatório; Campo e-mail é obrigatório.; Required")).
Proof. vm_compute. reflexivity. Qed.

Example post_three_wrong :
  handle post_root (Sample.post Sample.tudo_errado) Sample.world0 =
  (inr tt,
   answered Sample.world0 400
     (lit "O nome deve ter no mínimo 03 caracteres.; Deve ser um e-mail válido.; Deve enviar um telefone válido")).
Proof. vm_compute. reflexivity. Qed.

Example post_array :
  handle post_root (Sample.post (VArray [])) Sample.world0 =
  (inr tt, answered Sample.world0 400 (lit "Expected object, received array")).
Proof. vm_compute. reflexivity. Qed.

Lemma ana_valid :
  valid_submission (body (Sample.post Sample.ana))
    (lit "Ana Silva") (lit "ana@example.com") (lit "(11) 91234-5678").
Proof.
  exists (Sample.fields Sample.ana).
  split; [reflexivity |].
  split; [vm_compute; reflexivity |].
  split; [vm_compute; lia |].
  split; [vm_compute; reflexivity |].
  split; [vm_compute; reflexivity |].
  split; [vm_compute; reflexivity |].
  apply telefone_test_shape. vm_compute. reflexivity.
Defined.

(** C1 at the submission of the specification's example. *)
Lemma post_valid_persists_contact_ana :
  valid_submission (body (Sample.post Sample.ana))
    (lit "Ana Silva") (lit "ana@example.com") (lit "(11) 91234-5678") /\
  db_fault Sample.world0 = None /\
  handle post_root (Sample.post Sample.ana) Sample.world0 =
  (inr tt,
   answered
     (set_contatos
        (contatos Sample.world0 ++
           [{| nome := VString (lit "Ana Silva");
               telefone := VString (lit "(11) 91234-5678");
               email := VString (lit "ana@example.com") |}]) Sample.world0)
     200 msg_salvo).
Proof.
  split; [exact ana_valid |]. split; [reflexivity |].
  apply (post_valid_persists_contact (Sample.post Sample.ana) Sample.world0
           _ _ _ ana_valid eq_refl).
Defined.

(** C1 as stated fails while the store is down: the same valid submission
    gets no 200 and no success text. *)
Lemma post_valid_store_down :
  valid_submission (body (Sample.post Sample.ana))
    (lit "Ana Silva") (lit "ana@example.com") (lit "(11) 91234-5678") /\
  ~ (exists w',
       handle post_root (Sample.post Sample.ana) Sample.store_down =
       (inr tt, answered w' 200 msg_salvo)).
Proof.
  split; [exact ana_valid |].
  intros [w' H]. vm_compute in H. discriminate H.
Qed.

(** C2 at a phone without its hyphen. *)
Lemma telefone_exact_shape_sem_hifen :
  body (Sample.post Sample.sem_hifen) = VObject (Sample.fields Sample.sem_hifen) /\
  Sample.fields Sample.sem_hifen !! key_telefone
    = Some (VString (lit "(11) 912345678")) /\
  (Zod.parse_string schema_telefone [key_telefone] (VString (lit "(11) 912345678"))
     = [] <-> telefone_shape (lit "(11) 912345678")) /\
  (~ telefone_shape (lit "(11) 912345678") ->
   exists text,
     handle post_root (Sample.post Sample.sem_hifen) Sample.world0
       = (inr tt, answered Sample.world0 400 text) /\
     includes text msg_telefone_valido).
Proof.
  assert (Sample.fields Sample.sem_hifen !! key_telefone
            = Some (VString (lit "(11) 912345678"))) as Ht
    by (vm_compute; reflexivity).
  split; [reflexivity |]. split; [exact Ht |].
  exact (telefone_exact_shape (Sample.post Sample.sem_hifen) Sample.world0
           _ _ eq_refl Ht).
Defined.

(** C3 at a submission with three wrong fields: the handler's answer,
    evaluated, is the three messages in the order of the schema with ["; "]
    between them, as the property says of the messages of the rules. *)
Lemma post_object_joins_messages_tudo_errado :
  body (Sample.post Sample.tudo_errado) = VObject (props_of Sample.tudo_errado) /\
  nome_rule (default VUndefined (props_of Sample.tudo_errado !! key_nome))
    [msg_nome_min] /\
  email_rule (default VUndefined (props_of Sample.tudo_errado !! key_email))
    [msg_email_valido] /\
  telefone_rule (default VUndefined (props_of Sample.tudo_errado !! key_telefone))
    [msg_telefone_valido] /\
  (1 < length ([msg_nome_min] ++ [msg_email_valido] ++ [msg_telefone_valido]))%nat /\
  (exists first rest,
     [msg_nome_min] ++ [msg_email_valido] ++ [msg_telefone_valido] = first :: rest /\
     handle post_root (Sample.post Sample.tudo_errado) Sample.world0 =
     (inr tt,
      answered Sample.world0 400
        (first ++ concat (List.map (fun m => lit "; " ++ m) rest)))) /\
  handle post_root (Sample.post Sample.tudo_errado) Sample.world0 =
  (inr tt,
   answered Sample.world0 400
     (lit "O nome deve ter no mínimo 03 caracteres.; Deve ser um e-mail válido.; Deve enviar um telefone válido")).
Proof.
  assert (props_of Sample.tudo_errado !! key_nome = Some (VString (lit "Al")))
    as Ln by (vm_compute; reflexivity).
  assert (props_of Sample.tudo_errado !! key_email = Some (VString (lit "ana")))
    as Le by (vm_compute; reflexivity).
  assert (props_of Sample.tudo_errado !! key_telefone
            = Some (VString (lit "11912345678")))
    as Lt by (vm_compute; reflexivity).
  assert (nome_rule (default VUndefined (props_of Sample.tudo_errado !! key_nome))
            [msg_nome_min]) as Hn.
  { rewrite Ln. left. split; [vm_compute; lia | reflexivity]. }
  assert (email_rule (default VUndefined (props_of Sample.tudo_errado !! key_email))
            [msg_email_valido]) as He.
  { rewrite Le. left. split; [vm_compute; reflexivity | reflexivity]. }
  assert (telefone_rule
            (default VUndefined (props_of Sample.tudo_errado !! key_telefone))
            [msg_telefone_valido]) as Ht.
  { rewrite Lt. left. split; [| reflexivity].
    apply telefone_test_not_shape. vm_compute. reflexivity. }
  assert (1 < length ([msg_nome_min] ++ [msg_email_valido] ++ [msg_telefone_valido]))%nat
    as Hmany by (simpl; lia).
  split; [reflexivity |]. split; [exact Hn |]. split; [exact He |].
  split; [exact Ht |]. split; [exact Hmany |].
  split.
  - exact (post_object_joins_messages (Sample.post Sample.tudo_errado)
             Sample.world0 _ _ _ _ eq_refl Hn He Ht Hmany).
  - vm_compute. reflexivity.
Defined.

(** C3 as stated fails at a body that is not an object: in an empty JSON
    array nome, email and telefone are all three missing, yet the response
    is the one message about the array and not the three messages of the
    fields. *)
Lemma post_array_not_field_messages :
  member (VArray []) key_nome = inr VUndefined /\
  member (VArray []) key_email = inr VUndefined /\
  member (VArray []) key_telefone = inr VUndefined /\
  nome_rule VUndefined [msg_nome_obrigatorio] /\
  email_rule VUndefined [msg_email_obrigatorio] /\
  telefone_rule VUndefined [lit "Required"] /\
  (1 < length ([msg_nome_obrigatorio] ++ [msg_email_obrigatorio]
                 ++ [lit "Required"]))%nat /\
  handle post_root (Sample.post (VArray [])) Sample.world0 =
    (inr tt, answered Sample.world0 400 (lit "Expected object, received array")) /\
  handle post_root (Sample.post (VArray [])) Sample.world0 <>
    (inr tt,
     answered Sample.world0 400
       (msg_nome_obrigatorio ++ lit "; " ++ msg_email_obrigatorio ++ lit "; "
          ++ lit "Required")).
Proof.
  split; [reflexivity |]. split; [reflexivity |]. split; [reflexivity |].
  split; [reflexivity |]. split; [reflexivity |].
  split; [vm_compute; reflexivity |]. split; [simpl; lia |].
  split; [vm_compute; reflexivity |].
  intros H. vm_compute in H. discriminate H.
Qed.

(** C4 at a submission with a short name. *)
Lemma post_invalid_persists_nothing_curto :
  Zod.success (Zod.safeParse contatoSchema (body (Sample.post Sample.curto))) = false /\
  exists text,
    handle post_root (Sample.post Sample.curto) Sample.world0
      = (inr tt, answered Sample.world0 400 text) /\
    contatos (world (handle post_root (Sample.post Sample.curto) Sample.world0).2)
      = contatos Sample.world0.
Proof.
  assert (Zod.success (Zod.safeParse contatoSchema (body (Sample.post Sample.curto)))
            = false) as Hfail by (vm_compute; reflexivity).
  split; [exact Hfail |].
  exact (post_invalid_persists_nothing (Sample.post Sample.curto) Sample.world0 Hfail).
Defined.

(** C5 at a name of two characters. *)
Lemma nome_minimum_length_curto :
  body (Sample.post Sample.curto) = VObject (Sample.fields Sample.curto) /\
  Sample.fields Sample.curto !! key_nome = Some (VString (lit "Al")) /\
  ((length (lit "Al") < 3)%nat ->
   exists text,
     handle post_root (Sample.post Sample.curto) Sample.world0
       = (inr tt, answered Sample.world0 400 text) /\
     includes text msg_nome_min) /\
  ((3 <= length (lit "Al"))%nat ->
   Zod.parse_string schema_nome [key_nome] (VString (lit "Al")) = []).
Proof.
  assert (Sample.fields Sample.curto !! key_nome = Some (VString (lit "Al"))) as Hn
    by (vm_compute; reflexivity).
  split; [reflexivity |]. split; [exact Hn |].
  exact (nome_minimum_length (Sample.post Sample.curto) Sample.world0 _ _ eq_refl Hn).
Defined.

(** C7 at a submission without telefone: the handler's answer, evaluated,
    is the library's wording alone. *)
Lemma telefone_absent_default_message_sem_telefone :
  body (Sample.post Sample.sem_telefone) = VObject (Sample.fields Sample.sem_telefone) /\
  Sample.fields Sample.sem_telefone !! key_telefone = None /\
  (exists before,
     handle post_root (Sample.post Sample.sem_telefone) Sample.world0 =
     (inr tt,
      answered Sample.world0 400
        (before ++ Zod.defaultErrorMap Zod.t_string Zod.t_undefined))) /\
  Zod.defaultErrorMap Zod.t_string Zod.t_undefined = lit "Required" /\
  handle post_root (Sample.post Sample.sem_telefone) Sample.world0
    = (inr tt, answered Sample.world0 400 (lit "Required")).
Proof.
  assert (Sample.fields Sample.sem_telefone !! key_telefone = None) as Ht
    by (vm_compute; reflexivity).
  split; [reflexivity |]. split; [exact Ht |].
  split.
  - exact (proj1 (proj2 (proj2
             (telefone_absent_default_message (Sample.post Sample.sem_telefone)
                Sample.world0 (Sample.fields Sample.sem_telefone) eq_refl Ht)))).
  - split; vm_compute; reflexivity.
Defined.

(** C7 as stated fails at a body that is not an object: in an empty JSON
    array telefone is absent and validation fails, yet the response holds
    no message for the phone. *)
Lemma telefone_absent_in_array :
  member (VArray []) key_telefone = inr VUndefined /\
  Zod.success (Zod.safeParse contatoSchema (body (Sample.post (VArray [])))) = false /\
  handle post_root (Sample.post (VArray [])) Sample.world0 =
    (inr tt, answered Sample.world0 400 (lit "Expected object, received array")) /\
  ~ includes (lit "Expected object, received array")
      (Zod.defaultErrorMap Zod.t_string Zod.t_undefined).
Proof.
  split; [reflexivity |]. split; [reflexivity |].
  split; [vm_compute; reflexivity |].
  intros (pre & post & H).
  assert (82 ∈ Zod.defaultErrorMap Zod.t_string Zod.t_undefined) as HR
    by compute_done.
  assert (82 ∉ lit "Expected object, received array") as Hno by compute_done.
  apply Hno. rewrite H, !elem_of_app. right. by left.
Qed.

(** C8 at the example submission, with the store down. *)
Lemma post_store_failure_propagates_ana :
  Zod.success (Zod.safeParse contatoSchema (body (Sample.post Sample.ana))) = true /\
  db_fault Sample.store_down = Some (Error (lit "SequelizeConnectionError")) /\
  handle post_root (Sample.post Sample.ana) Sample.store_down =
  (inl (Error (lit "SequelizeConnectionError")),
   {| world := Sample.store_down; res := fresh_res |}).
Proof.
  assert (Zod.success (Zod.safeParse contatoSchema (body (Sample.post Sample.ana)))
            = true) as Hok by (vm_compute; reflexivity).
  split; [exact Hok |]. split; [reflexivity |].
  exact (post_store_failure_propagates (Sample.post Sample.ana) Sample.store_down
           _ Hok eq_refl).
Defined.

(** C9 at the example submission, arriving while the append of an earlier
    request is pending: the queue after the request, the file after both
    appends completed, and file and console after the second one failed,
    all evaluated. *)
Lemma access_logger_one_line_ana :
  (pending_appends Cases.busy_after
   = pending_appends (world Cases.busy_state)
       ++ [(path_join (dirname (world Cases.busy_state)) (lit "access.log"),
            now_iso (world Cases.busy_state) ++ lit " - "
              ++ method (Sample.post Sample.ana) ++ lit " "
              ++ originalUrl (Sample.post Sample.ana) ++ [10],
            log_written)]) /\
  pending_appends Cases.busy_after
  = [(lit "/srv/app/access.log", lit "2024-05-01T11:59:59.000Z - GET /" ++ [10],
      log_written);
     (lit "/srv/app/access.log", lit "2024-05-01T12:00:00.000Z - POST /" ++ [10],
      log_written)] /\
  files (complete_append None (complete_append None Cases.busy_after))
    !! lit "/srv/app/access.log"
  = Some (lit "2024-05-01T11:59:59.000Z - GET /" ++ [10]
            ++ lit "2024-05-01T12:00:00.000Z - POST /" ++ [10]) /\
  files (complete_append (Some Cases.disk_full)
           (complete_append None Cases.busy_after))
    !! lit "/srv/app/access.log"
  = Some (lit "2024-05-01T11:59:59.000Z - GET /" ++ [10]) /\
  console (complete_append (Some Cases.disk_full)
             (complete_append None Cases.busy_after))
  = [console_error_entry (lit "Erro ao escrever no arquivo de log:")
       Cases.disk_full] /\
  sent (res (app (Sample.post Sample.ana) Cases.busy_state).2)
  = [Sent 200 msg_salvo].
Proof.
  split.
  - exact (proj1 (proj2
             (access_logger_one_line (Sample.post Sample.ana) Cases.busy_state))).
  - repeat (split; [vm_compute; reflexivity |]). vm_compute. reflexivity.
Defined.

(** C10 at the example submission and the same with one more field. *)
Lemma post_ignores_other_fields_admin :
  body (Sample.post Sample.ana) = VObject (Sample.fields Sample.ana) /\
  body (Sample.post Sample.ana_admin) = VObject (Sample.fields Sample.ana_admin) /\
  Sample.fields Sample.ana !! key_nome = Sample.fields Sample.ana_admin !! key_nome /\
  Sample.fields Sample.ana !! key_email = Sample.fields Sample.ana_admin !! key_email /\
  Sample.fields Sample.ana !! key_telefone
    = Sample.fields Sample.ana_admin !! key_telefone /\
  handle post_root (Sample.post Sample.ana) Sample.world0
    = handle post_root (Sample.post Sample.ana_admin) Sample.world0.
Proof.
  assert (Sample.fields Sample.ana !! key_nome
            = Sample.fields Sample.ana_admin !! key_nome) as Hn
    by (vm_compute; reflexivity).
  assert (Sample.fields Sample.ana !! key_email
            = Sample.fields Sample.ana_admin !! key_email) as He
    by (vm_compute; reflexivity).
  assert (Sample.fields Sample.ana !! key_telefone
            = Sample.fields Sample.ana_admin !! key_telefone) as Ht
    by (vm_compute; reflexivity).
  repeat (split; [first [reflexivity | assumption] |]).
  exact (post_ignores_other_fields (Sample.post Sample.ana)
           (Sample.post Sample.ana_admin) Sample.world0 _ _ eq_refl eq_refl Hn He Ht).
Defined.

(** C10 as stated fails between an array and an object: an empty JSON array
    and an empty object agree on nome, email and telefone, all three
    undefined, and get different responses. *)
Lemma post_array_body_differs :
  member (VArray []) key_nome = member (Sample.object []) key_nome /\
  member (VArray []) key_email = member (Sample.object []) key_email /\
  member (VArray []) key_telefone = member (Sample.object []) key_telefone /\
  handle post_root (Sample.post (VArray [])) Sample.world0
    <> handle post_root (Sample.post (Sample.object [])) Sample.world0.
Proof.
  repeat (split; [reflexivity |]).
  intros H. vm_compute in H. discriminate H.
Qed.

(** ** Further properties at concrete requests *)

Lemma ana_record_valid : valid_record Cases.ana_record.
Proof.
  exists (lit "Ana Silva"), (lit "ana@example.com"), (lit "(11) 91234-5678").
  split; [reflexivity |].
  split; [vm_compute; lia |].
  split; [vm_compute; reflexivity |].
  apply telefone_test_shape. vm_compute. reflexivity.
Defined.

(** X2 at a store holding one valid contact, on one more valid submission. *)
Lemma stored_records_stay_valid_ana :
  Forall valid_record (contatos Cases.stocked) /\
  Forall valid_record
    (contatos
       (world (app (Sample.post Sample.ana)
                 {| world := Cases.stocked; res := fresh_res |}).2)).
Proof.
  assert (Forall valid_record (contatos Cases.stocked)) as Hall.
  { constructor; [exact ana_record_valid | constructor]. }
  split; [exact Hall |].
  exact (stored_records_stay_valid (Sample.post Sample.ana)
           {| world := Cases.stocked; res := fresh_res |} Hall).
Defined.

(** X4 at a run of five requests: two different valid submissions, one of
    them sent twice, a refused one and a listing; the rendered list,
    evaluated, holds the three records. *)
Lemma listing_after_requests_traffic :
  db_fault Sample.world0 = None /\
  (exists listed,
     handle get_contatos Cases.get_list
       (serve_all Cases.mixed_traffic Sample.world0) =
     (inr tt,
      {| world := serve_all Cases.mixed_traffic Sample.world0;
         res := {| statusCode := 200;
                   sent := [Rendered 200 (lit "contatos")
                              [(lit "contatos", listed)]] |} |}) /\
     listed
       ≡ₚ contatos Sample.world0
            ++ List.map posted
                 (List.filter (fun r => creates r Sample.world0)
                    Cases.mixed_traffic)) /\
  contatos Sample.world0
    ++ List.map posted
         (List.filter (fun r => creates r Sample.world0) Cases.mixed_traffic)
  = [Cases.ana_record; Cases.bia_record; Cases.ana_record] /\
  exists listed,
    sent (res (handle get_contatos Cases.get_list
                 (serve_all Cases.mixed_traffic Sample.world0)).2)
    = [Rendered 200 (lit "contatos") [(lit "contatos", listed)]] /\
    listed ≡ₚ [Cases.bia_record; Cases.ana_record; Cases.ana_record].
Proof.
  split; [reflexivity |]. split.
  - exact (listing_after_requests Cases.mixed_traffic Sample.world0
             Cases.get_list eq_refl).
  - split; [vm_compute; reflexivity |].
    exists [Cases.ana_record; Cases.bia_record; Cases.ana_record].
    split; [vm_compute; reflexivity | apply perm_swap].
Defined.


(** X6 at the example submission. *)
Lemma log_line_is_one_line_ana :
  (10 ∉ now_iso Sample.world0) /\
  (10 ∉ method (Sample.post Sample.ana)) /\
  (10 ∉ originalUrl (Sample.post Sample.ana)) /\
  exists text,
    (10 ∉ text) /\
    pending_appends
      (world (app (Sample.post Sample.ana)
                {| world := Sample.world0; res := fresh_res |}).2)
    = pending_appends Sample.world0 ++
        [(path_join (dirname Sample.world0) (lit "access.log"), text ++ [10],
          log_written)].
Proof.
  assert (10 ∉ now_iso Sample.world0) as Hnow by compute_done.
  assert (10 ∉ method (Sample.post Sample.ana)) as Hm by compute_done.
  assert (10 ∉ originalUrl (Sample.post Sample.ana)) as Hu by compute_done.
  repeat (split; [assumption |]).
  exact (log_line_is_one_line (Sample.post Sample.ana)
           {| world := Sample.world0; res := fresh_res |} Hnow Hm Hu).
Defined.

(** X7 at the phone of the example submission. *)
Lemma telefone_accepted_alphabet_ana :
  RegExp.test telefone_regex (lit "(11) 91234-5678") = true /\
  length (lit "(11) 91234-5678") = 15%nat /\
  Forall telefone_char (lit "(11) 91234-5678").
Proof.
  assert (RegExp.test telefone_regex (lit "(11) 91234-5678") = true) as Hok
    by (vm_compute; reflexivity).
  split; [exact Hok |].
  exact (telefone_accepted_alphabet _ Hok).
Defined.

(** X8 at the same phone, with nothing around it. *)
Lemma telefone_no_padding_ana :
  RegExp.test telefone_regex (lit "(11) 91234-5678") = true /\
  RegExp.test telefone_regex ([] ++ lit "(11) 91234-5678" ++ []) = true /\
  @nil N = [] /\ @nil N = [].
Proof.
  assert (RegExp.test telefone_regex (lit "(11) 91234-5678") = true) as Hok
    by (vm_compute; reflexivity).
  assert (RegExp.test telefone_regex ([] ++ lit "(11) 91234-5678" ++ []) = true)
    as Hpad by (vm_compute; reflexivity).
  split; [exact Hok |]. split; [exact Hpad |].
  exact (telefone_no_padding [] _ [] Hok Hpad).
Defined.

(** X10 at an empty JSON array. *)
Lemma non_object_body_rejected_array :
  (forall props, body (Sample.post (VArray [])) <> VObject props) /\
  handle post_root (Sample.post (VArray [])) Sample.world0 =
  (inr tt, answered Sample.world0 400 (lit "Expected object, received array")).
Proof.
  assert (forall props, body (Sample.post (VArray [])) <> VObject props) as Hno
    by (intros props H; discriminate H).
  split; [exact Hno |].
  rewrite (non_object_body_rejected (Sample.post (VArray [])) Sample.world0 Hno).
  vm_compute. reflexivity.
Defined.

(** X11 at an email without its at sign. *)
Lemma email_rule_messages_ruim :
  body (Sample.post Cases.email_ruim) = VObject (props_of Cases.email_ruim) /\
  get_own (props_of Cases.email_ruim) key_email = VString (lit "ana.example.com") /\
  Zod.emailRegex_test (lit "ana.example.com") = false /\
  exists text,
    handle post_root (Sample.post Cases.email_ruim) Sample.world0
      = (inr tt, answered Sample.world0 400 text) /\
    includes text msg_email_valido.
Proof.
  assert (get_own (props_of Cases.email_ruim) key_email
            = VString (lit "ana.example.com")) as He by (vm_compute; reflexivity).
  split; [reflexivity |]. split; [exact He |]. split; [reflexivity |].
  exact (proj1 (email_rule_messages (Sample.post Cases.email_ruim) Sample.world0
                  _ eq_refl) _ He eq_refl).
Defined.

(** X12 at a nome that is a number. *)
Lemma nome_not_text_comes_first_numero :
  body (Sample.post Cases.nome_numero) = VObject (props_of Cases.nome_numero) /\
  (forall s, get_own (props_of Cases.nome_numero) key_nome <> VString s) /\
  exists rest,
    handle post_root (Sample.post Cases.nome_numero) Sample.world0
    = (inr tt, answered Sample.world0 400 (msg_nome_obrigatorio ++ rest)).
Proof.
  assert (forall s, get_own (props_of Cases.nome_numero) key_nome <> VString s)
    as Hno by (intros s H; vm_compute in H; discriminate H).
  split; [reflexivity |]. split; [exact Hno |].
  exact (nome_not_text_comes_first (Sample.post Cases.nome_numero)
           Sample.world0 _ eq_refl Hno).
Defined.

(** X13 at a telefone that is a number. *)
Lemma telefone_not_text_default_wording_numero :
  body (Sample.post Cases.telefone_numero)
    = VObject (props_of Cases.telefone_numero) /\
  (forall s, get_own (props_of Cases.telefone_numero) key_telefone <> VString s) /\
  exists before,
    handle post_root (Sample.post Cases.telefone_numero) Sample.world0
    = (inr tt,
       answered Sample.world0 400
         (before ++ Zod.defaultErrorMap Zod.t_string
                      (Zod.getParsedType
                         (get_own (props_of Cases.telefone_numero) key_telefone)))).
Proof.
  assert (forall s,
            get_own (props_of Cases.telefone_numero) key_telefone <> VString s)
    as Hno by (intros s H; vm_compute in H; discriminate H).
  split; [reflexivity |]. split; [exact Hno |].
  exact (telefone_not_text_default_wording (Sample.post Cases.telefone_numero)
           Sample.world0 _ eq_refl Hno).
Defined.

Example post_telefone_numero :
  handle post_root (Sample.post Cases.telefone_numero) Sample.world0
  = (inr tt, answered Sample.world0 400 (lit "Expected string, received number")).
Proof. vm_compute. reflexivity. Qed.

Example post_nome_numero :
  handle post_root (Sample.post Cases.nome_numero) Sample.world0
  = (inr tt, answered Sample.world0 400 msg_nome_obrigatorio).
Proof. vm_compute. reflexivity. Qed.

(** X14 at a submission with a short name and a wrong e-mail: the
    handler's answer, evaluated, is the two messages with ["; "] between
    them. *)
Lemma post_invalid_text_dois_erros :
  body (Sample.post Cases.dois_erros) = VObject (props_of Cases.dois_erros) /\
  Zod.success (Zod.safeParse contatoSchema (body (Sample.post Cases.dois_erros)))
    = false /\
  (exists nome_msgs email_msgs telefone_msgs first rest,
     nome_rule (default VUndefined (props_of Cases.dois_erros !! key_nome))
       nome_msgs /\
     email_rule (default VUndefined (props_of Cases.dois_erros !! key_email))
       email_msgs /\
     telefone_rule (default VUndefined (props_of Cases.dois_erros !! key_telefone))
       telefone_msgs /\
     nome_msgs ++ email_msgs ++ telefone_msgs = first :: rest /\
     handle post_root (Sample.post Cases.dois_erros) Sample.world0 =
     (inr tt,
      answered Sample.world0 400
        (first ++ concat (List.map (fun m => lit "; " ++ m) rest))) /\
     (rest = [] ->
      handle post_root (Sample.post Cases.dois_erros) Sample.world0
      = (inr tt, answered Sample.world0 400 first))) /\
  handle post_root (Sample.post Cases.dois_erros) Sample.world0 =
  (inr tt,
   answered Sample.world0 400
     (lit "O nome deve ter no mínimo 03 caracteres.; Deve ser um e-mail válido.")).
Proof.
  assert (Zod.success
            (Zod.safeParse contatoSchema (body (Sample.post Cases.dois_erros)))
            = false) as Hfail by (vm_compute; reflexivity).
  split; [reflexivity |]. split; [exact Hfail |]. split.
  - exact (post_invalid_text (Sample.post Cases.dois_erros) Sample.world0
             (props_of Cases.dois_erros) eq_refl Hfail).
  - vm_compute. reflexivity.
Defined.

(** X15 at the example submission with one more field. *)
Lemma parsed_data_matches_body_admin :
  Zod.success (Zod.safeParse contatoSchema Sample.ana_admin) = true /\
  exists props data,
    Sample.ana_admin = VObject props /\
    Zod.safeParse contatoSchema Sample.ana_admin
      = Zod.SafeParseSuccess (VObject data) /\
    data !! key_nome = props !! key_nome /\
    data !! key_email = props !! key_email /\
    data !! key_telefone = props !! key_telefone /\
    (forall k, k <> key_nome -> k <> key_email -> k <> key_telefone ->
               data !! k = None).
Proof.
  assert (Zod.success (Zod.safeParse contatoSchema Sample.ana_admin) = true) as Hok
    by (vm_compute; reflexivity).
  split; [exact Hok |].
  exact (parsed_data_matches_body Sample.ana_admin Hok).
Defined.
